(** * ImageProcessor (src/app.js): batch image labelling pipeline

    A shallow embedding of the [ImageProcessor] class: the file gate
    ([prepareFiles]), the category heuristic ([getCategoryFromPath]), the
    remote client ([analyzeVision], [imageToBase64]) and the sequential
    batch loop ([processWithVision]).

    Conventions of the embedding.
    - JavaScript strings are [string]; one [ascii] stands for one code unit.
    - [File.size] is an integer number of bytes ([Z]).  The size limit and
      the progress percentage are rationals ([Q]): the code only divides an
      integer size by the power of two [1024 * 1024], which binary64 does
      exactly, and the percentage is the quotient written in the source.
    - A label score is an IEEE-754 binary64 value ([spec_float]) compared
      with the binary64 constant nearest to 0.6.
    - Calls to the page (alert, DOM updates, timers, console, fetch) are
      recorded as [Event]s in call order.
    - What the outside world answers during one [analyzeVision] call (file
      read, HTTP exchange) is an [Exchange] value given as an input. *)

From Stdlib Require Import List String Ascii Bool Arith ZArith QArith Lia.
From Stdlib Require Import SpecFloat.
Import ListNotations.

Local Open Scope string_scope.

(** ** JavaScript primitives used by the class *)

Module Js.

(** The characters the source names. *)
Definition slash : ascii := "047"%char.
Definition backslash : ascii := "092"%char.
Definition hyphen : ascii := "045"%char.
Definition underscore : ascii := "095"%char.
Definition comma : ascii := "044"%char.
Definition dquote : ascii := "034"%char.

(** Truthiness of a string: only the empty string is falsy. *)
Definition truthy (s : string) : bool :=
  match s with
  | EmptyString => false
  | String _ _ => true
  end.

(** [a || b] on strings. *)
Definition or (a b : string) : string := if truthy a then a else b.

(** [a || b] where [a] may be [undefined]. *)
Definition or_undef (a : option string) (b : string) : string :=
  match a with
  | Some s => or s b
  | None => b
  end.

(** Truthiness of a possibly absent string. *)
Definition truthy_undef (a : option string) : bool :=
  match a with
  | Some s => truthy s
  | None => false
  end.

(** Truthiness of a number: zeros and NaN are falsy. *)
Definition truthy_number (x : spec_float) : bool :=
  match x with
  | S754_zero _ => false
  | S754_nan => false
  | _ => true
  end.

(** The binary64 value of the literal [0.6]:
    5404319552844595 * 2^-53 (0x3FE3333333333333). *)
Definition lit_0_6 : spec_float := S754_finite false 5404319552844595 (-53).

(** [x > y] on numbers. *)
Definition gt (x y : spec_float) : bool := SFltb y x.

Definition is_upper (c : ascii) : bool :=
  let n := nat_of_ascii c in (65 <=? n)%nat && (n <=? 90)%nat.
Definition is_lower (c : ascii) : bool :=
  let n := nat_of_ascii c in (97 <=? n)%nat && (n <=? 122)%nat.
Definition is_digit (c : ascii) : bool :=
  let n := nat_of_ascii c in (48 <=? n)%nat && (n <=? 57)%nat.

(** Case mapping of one code unit (the letters A-Z; every other code
    unit of the model is its own lower case). *)
Definition lower_char (c : ascii) : ascii :=
  if is_upper c then ascii_of_nat (nat_of_ascii c + 32) else c.

Fixpoint map_chars (f : ascii -> ascii) (s : string) : string :=
  match s with
  | EmptyString => EmptyString
  | String c r => String (f c) (map_chars f r)
  end.

Fixpoint all_chars (p : ascii -> bool) (s : string) : bool :=
  match s with
  | EmptyString => true
  | String c r => p c && all_chars p r
  end.

(** [s.toLowerCase()] *)
Definition toLowerCase (s : string) : string := map_chars lower_char s.

(** [s.replace(/c/g, d)] for single characters [c] and [d]. *)
Definition replaceAll (c d : ascii) (s : string) : string :=
  map_chars (fun x => if Ascii.eqb x c then d else x) s.

(** [s.split(sep)] for a one-character separator: never empty, the
    empty string splits into one empty segment. *)
Fixpoint split (sep : ascii) (s : string) : list string :=
  match s with
  | EmptyString => [EmptyString]
  | String c r =>
      if Ascii.eqb c sep then EmptyString :: split sep r
      else match split sep r with
           | seg :: segs => String c seg :: segs
           | [] => [String c EmptyString]
           end
  end.

(** [xs.join(sep)] *)
Fixpoint join (sep : string) (xs : list string) : string :=
  match xs with
  | [] => EmptyString
  | [x] => x
  | x :: rest => x ++ sep ++ join sep rest
  end.

(** [s.substring(0, n)] *)
Definition substring0 (n : nat) (s : string) : string := substring 0 n s.

(** The class [\w] of a regular expression without flags. *)
Definition is_word (c : ascii) : bool :=
  is_upper c || is_lower c || is_digit c || Ascii.eqb c underscore.

(** [/^[\w-]+$/.test(s)] *)
Definition test_word_hyphen (s : string) : bool :=
  truthy s && all_chars (fun c => is_word c || Ascii.eqb c hyphen) s.

(** The built-in error constructors whose instances reach the [catch]
    of [analyzeVision]. *)
Inductive ErrorCtor : Type :=
| Error | TypeError | SyntaxError | RangeError | URIError | AbortError.

Definition ctor_name (c : ErrorCtor) : string :=
  match c with
  | Error => "Error"
  | TypeError => "TypeError"
  | SyntaxError => "SyntaxError"
  | RangeError => "RangeError"
  | URIError => "URIError"
  | AbortError => "AbortError"
  end.

Record Exception : Type := mkException {
  ctor : ErrorCtor;
  message : string
}.

(** [String(e)], i.e. [Error.prototype.toString]. *)
Definition String_of (e : Exception) : string :=
  if truthy (message e) then ctor_name (ctor e) ++ ": " ++ message e
  else ctor_name (ctor e).

(** How the evaluation of a call ends. *)
Inductive Completion (A : Type) : Type :=
| Returns (a : A)
| Throws (e : Exception).
Arguments Returns {A} a.
Arguments Throws {A} e.

End Js.

Import Js.

(** [a > b] and [a <= b] on the rational numbers of the model. *)
Definition gtQ (a b : Q) : bool :=
  match Qcompare a b with Gt => true | _ => false end.
Definition leQ (a b : Q) : bool :=
  match Qcompare a b with Gt => false | _ => true end.

(** ** Data model *)

(** A browser [File]: the code reads [name] and [size]; [content] is the
    blob that the metadata probe and the file reader consume. *)
Module File.
Record t : Type := make { name : string; size : Z; content : string }.
End File.

(** One entry of [labelAnnotations]; [score] may be absent. *)
Module Label.
Record t : Type := make { description : string; score : option spec_float }.
End Label.

(** The object returned by [analyzeVision]; [error = None] is a missing
    [error] property. *)
Module Vision.
Record t : Type := make {
  labels : list Label.t;
  description : string;
  error : option string
}.
End Vision.

(** The row object: created by [extractMetadata], completed by
    [processWithVision], pushed to [processedData]. *)
Module Meta.
Record t : Type := make {
  name : string;
  path : string;
  size : Z;
  width : Z;
  height : Z;
  description : string;
  category_slug : string;
  tags : string
}.
End Meta.

(** The parsed body of the annotate endpoint, as far as the code reads it.
    [None] is a missing property. *)
Module Body.
Record BestGuess : Type := { label : option string }.
Record WebDetection : Type := { bestGuessLabels : option (list BestGuess) }.
Record Annotation : Type := {
  labelAnnotations : option (list Label.t);
  webDetection : option WebDetection
}.
Record ApiError : Type := { message : option string }.
Record t : Type := make {
  error : option ApiError;
  responses : option (list Annotation)
}.
End Body.

(** A [fetch] response: [json] is how [response.json()] settles. *)
Module Response.
Record t : Type := make {
  ok : bool;
  statusText : string;
  json : Completion Body.t
}.
End Response.

(** What the [FileReader] does: [onload] with a data URL, or [onerror]. *)
Inductive ReadOutcome : Type :=
| Loaded (result : string)
| ReadError.

(** What the outside world does during one [analyzeVision] call. *)
Record Exchange : Type := mkExchange {
  read : ReadOutcome;
  fetched : Completion Response.t
}.

(** The three [alert] texts of the class. *)
Inductive AlertMsg : Type :=
| OversizedFiles (maxMB : Q)
| ProcessingFailed (fileName : string) (error : string)
| ReadFailed (fileName : string).

(** Calls to the page and the runtime, in call order. *)
Inductive Event : Type :=
| ShowProgress
| UpdateProgress (percent : Q) (text : string)
| Alert (msg : AlertMsg)
| UpdateItemStatus (index : nat) (status : string)
| AppendRow (row : Meta.t)
| Sleep (ms : Z)
| ShowResults
| HideProgressAfter (ms : Z)
| ConsoleError (e : Exception)
| Fetch (apiKey : string) (content : option string)
| ClearResultsTable
| ShowPreview.

(** The fields of the [ImageProcessor] instance. *)
Record State : Type := mkState {
  images : list File.t;
  processedData : list Meta.t;
  MAX_FILE_SIZE_MB : Q
}.

(** The state after [new ImageProcessor()]. *)
Definition constructed : State :=
  {| images := []; processedData := []; MAX_FILE_SIZE_MB := 5 |}.

(** ** Effects *)

(** A call that does not touch the instance fields: the events it causes
    and how it ends. *)
Record Io (A : Type) : Type := mkIo {
  io_events : list Event;
  io_result : Completion A
}.
Arguments mkIo {A} _ _.
Arguments io_events {A} _.
Arguments io_result {A} _.

(** A method run from a state: events, completion and final state. *)
Record Run (A : Type) : Type := mkRun {
  events : list Event;
  completion : Completion A;
  final : State
}.
Arguments mkRun {A} _ _ _.
Arguments events {A} _.
Arguments completion {A} _.
Arguments final {A} _.

Definition M (A : Type) : Type := State -> Run A.

Module IoM.
Definition ret {A} (a : A) : Io A := mkIo [] (Returns a).
Definition throw {A} (e : Exception) : Io A := mkIo [] (Throws e).
Definition emit (ev : Event) : Io unit := mkIo [ev] (Returns tt).
Definition settle {A} (c : Completion A) : Io A := mkIo [] c.
Definition bind {A B} (m : Io A) (k : A -> Io B) : Io B :=
  match io_result m with
  | Returns a => mkIo (io_events m ++ io_events (k a)) (io_result (k a))
  | Throws e => mkIo (io_events m) (Throws e)
  end.
(** [try { m } catch (e) { h e }] *)
Definition try_catch {A} (m : Io A) (h : Exception -> Io A) : Io A :=
  match io_result m with
  | Returns a => m
  | Throws e => mkIo (io_events m ++ io_events (h e)) (io_result (h e))
  end.
End IoM.

Module StM.
Definition ret {A} (a : A) : M A := fun s => mkRun [] (Returns a) s.
Definition emit (ev : Event) : M unit := fun s => mkRun [ev] (Returns tt) s.
Definition gets {A} (f : State -> A) : M A := fun s => mkRun [] (Returns (f s)) s.
Definition modify (f : State -> State) : M unit :=
  fun s => mkRun [] (Returns tt) (f s).
Definition lift {A} (m : Io A) : M A :=
  fun s => mkRun (io_events m) (io_result m) s.
Definition bind {A B} (m : M A) (k : A -> M B) : M B :=
  fun s =>
    let r := m s in
    match completion r with
    | Returns a =>
        let r' := k a (final r) in
        mkRun (events r ++ events r') (completion r') (final r')
    | Throws e => mkRun (events r) (Throws e) (final r)
    end.
End StM.

Declare Scope io_scope.
Declare Scope st_scope.
Delimit Scope io_scope with io.
Delimit Scope st_scope with st.
Notation "x <- m ;; k" := (IoM.bind m (fun x => k))
  (at level 61, m at next level, right associativity) : io_scope.
Notation "m ;; k" := (IoM.bind m (fun _ => k))
  (at level 61, right associativity) : io_scope.
Notation "x <- m ;; k" := (StM.bind m (fun x => k))
  (at level 61, m at next level, right associativity) : st_scope.
Notation "m ;; k" := (StM.bind m (fun _ => k))
  (at level 61, right associativity) : st_scope.

(** ** The methods of the class *)

(** [f.size / (1024 * 1024)] *)
Definition sizeMB (f : File.t) : Q := inject_Z (File.size f) / inject_Z (1024 * 1024).

(** [prepareFiles(files)], lines 92-106. *)
Definition prepareFiles (files : list File.t) : M unit :=
  (max <- StM.gets MAX_FILE_SIZE_MB ;;
   let oversized := filter (fun f => gtQ (sizeMB f) max) files in
   (if negb (List.length oversized =? 0)%nat
    then StM.emit (Alert (OversizedFiles max))
    else StM.ret tt) ;;
   let files := filter (fun f => leQ (sizeMB f) max) files in
   StM.modify (fun s => {| images := files;
                           processedData := processedData s;
                           MAX_FILE_SIZE_MB := MAX_FILE_SIZE_MB s |}) ;;
   StM.modify (fun s => {| images := images s;
                           processedData := [];
                           MAX_FILE_SIZE_MB := MAX_FILE_SIZE_MB s |}) ;;
   StM.emit ClearResultsTable ;;
   StM.emit ShowPreview)%st.

(** [getCategoryFromPath(path)], lines 109-118. *)
Definition getCategoryFromPath (path : string) : string :=
  if negb (truthy path) then ""
  else
    let parts := split slash (replaceAll backslash slash path) in
    if (2 <=? List.length parts)%nat then
      let slug := nth (List.length parts - 2) parts "" in
      if test_word_hyphen slug then toLowerCase slug else ""
    else "".

(** [(l) => l.score && l.score > 0.6], the filter of line 140. *)
Definition score_passes (l : Label.t) : bool :=
  match Label.score l with
  | Some x => truthy_number x && gt x lit_0_6
  | None => false
  end.

(** Lines 136-143 of [processWithVision]: the fields written to [meta]
    from a result without error. *)
Definition buildRecord (meta : Meta.t) (vision : Vision.t) : Meta.t :=
  let labels := Vision.labels vision in
  let description := Vision.description vision in
  let description' :=
    if truthy description then substring0 100 description else "" in
  let tags :=
    if negb (List.length labels =? 0)%nat
    then map (fun l => toLowerCase (Label.description l)) (filter score_passes labels)
    else [] in
  let category_slug := getCategoryFromPath (Meta.path meta) in
  let tags' :=
    if negb (List.length tags =? 0)%nat
    then String dquote (join ", " tags ++ String dquote "")
    else "" in
  {| Meta.name := Meta.name meta;
     Meta.path := Meta.path meta;
     Meta.size := Meta.size meta;
     Meta.width := Meta.width meta;
     Meta.height := Meta.height meta;
     Meta.description := description';
     Meta.category_slug := category_slug;
     Meta.tags := tags' |}.

(** [imageToBase64(file)], lines 191-204: the promise resolves with
    [reader.result.split(",")[1]] or rejects after an alert. *)
Definition imageToBase64 (file : File.t) (r : ReadOutcome) : Io (option string) :=
  match r with
  | Loaded result => IoM.ret (nth_error (split comma result) 1)
  | ReadError =>
      (IoM.emit (Alert (ReadFailed (File.name file))) ;;
       IoM.throw (mkException Error "Lectura fallida"))%io
  end.

(** [respJson.responses?.[0]] *)
Definition first_response (j : Body.t) : option Body.Annotation :=
  match Body.responses j with
  | Some rs => hd_error rs
  | None => None
  end.

(** [respJson.responses?.[0]?.labelAnnotations] *)
Definition label_annotations (j : Body.t) : option (list Label.t) :=
  match first_response j with
  | Some a => Body.labelAnnotations a
  | None => None
  end.

(** [respJson.responses?.[0]?.labelAnnotations || []]: an array, even an
    empty one, is truthy. *)
Definition response_labels (j : Body.t) : list Label.t :=
  match label_annotations j with
  | Some ls => ls
  | None => []
  end.

(** [respJson.responses?.[0]?.webDetection?.bestGuessLabels?.[0]?.label] *)
Definition best_guess_label (j : Body.t) : option string :=
  match first_response j with
  | Some a =>
      match Body.webDetection a with
      | Some w =>
          match Body.bestGuessLabels w with
          | Some bs =>
              match hd_error bs with
              | Some b => Body.label b
              | None => None
              end
          | None => None
          end
      | None => None
      end
  | None => None
  end.

(** [... ?.label || ""] *)
Definition response_description (j : Body.t) : string :=
  or_undef (best_guess_label j) "".

(** [respJson.error?.message] *)
Definition error_message (j : Body.t) : option string :=
  match Body.error j with
  | Some e => Body.message e
  | None => None
  end.

(** [respJson.error] as a condition: an object is truthy. *)
Definition has_error_field (j : Body.t) : bool :=
  match Body.error j with Some _ => true | None => false end.

(** The body of the [try] of [analyzeVision], lines 157-184.  The request
    is recorded as a [Fetch] event with the key and the encoded image; the
    answer is the one of the exchange. *)
Definition analyzeVision_try (file : File.t) (apiKey : string) (x : Exchange)
  : Io Vision.t :=
  (base64 <- imageToBase64 file (read x) ;;
   IoM.emit (Fetch apiKey base64) ;;
   response <- IoM.settle (fetched x) ;;
   respJson <- IoM.settle (Response.json response) ;;
   if negb (Response.ok response) || has_error_field respJson then
     let errorMsg :=
       or_undef (error_message respJson)
                (or (Response.statusText response) "Desconocido") in
     IoM.ret {| Vision.labels := []; Vision.description := "";
                Vision.error := Some ("API: " ++ errorMsg) |}
   else
     let labels := response_labels respJson in
     let description := response_description respJson in
     IoM.ret {| Vision.labels := labels; Vision.description := description;
                Vision.error := None |})%io.

(** [analyzeVision(file, apiKey)], lines 155-189. *)
Definition analyzeVision (file : File.t) (apiKey : string) (x : Exchange)
  : Io Vision.t :=
  IoM.try_catch
    (analyzeVision_try file apiKey x)
    (fun e =>
       (IoM.emit (ConsoleError e) ;;
        IoM.ret {| Vision.labels := []; Vision.description := "";
                   Vision.error := Some (or (Js.message e) (String_of e)) |})%io).

(** [for (let i = start; ...; i++) body(i, this.images[i])] over the
    remaining images; the body never assigns [this.images]. *)
Fixpoint forEach (i : nat) (rest : list File.t) (body : nat -> File.t -> M unit)
  : M unit :=
  match rest with
  | [] => StM.ret tt
  | file :: rest' => (body i file ;; forEach (S i) rest' body)%st
  end.

Section Batch.

(** [extractMetadata] is elided from the source file; it is taken as a
    parameter: any function from a file to a fresh row object. *)
Variable extractMetadata : File.t -> Meta.t.

(** What the outside world does during the [analyzeVision] call of the
    item at index [i] of a run. *)
Variable world : nat -> File.t -> string -> Exchange.

(** One iteration of the loop of [processWithVision], lines 123-147. *)
Definition processItem (apiKey : string) (i : nat) (file : File.t) : M unit :=
  (n <- StM.gets (fun s => List.length (images s)) ;;
   StM.emit (UpdateProgress
               ((inject_Z (Z.of_nat (i + 1)) / inject_Z (Z.of_nat n)) * 100)
               ("Procesando " ++ File.name file)) ;;
   let meta := extractMetadata file in
   vision <- StM.lift (analyzeVision file apiKey (world i file apiKey)) ;;
   let completed :=
     (let meta := buildRecord meta vision in
      StM.modify (fun s => {| images := images s;
                              processedData := processedData s ++ [meta];
                              MAX_FILE_SIZE_MB := MAX_FILE_SIZE_MB s |}) ;;
      StM.emit (AppendRow meta) ;;
      StM.emit (UpdateItemStatus i "completed") ;;
      StM.emit (Sleep 200)) in
   match Vision.error vision with
   | Some err =>
       if truthy err then
         StM.emit (Alert (ProcessingFailed (File.name file) err)) ;;
         StM.emit (UpdateItemStatus i "error")
       else completed
   | None => completed
   end)%st.

(** [processWithVision(apiKey)], lines 120-152. *)
Definition processWithVision (apiKey : string) : M unit :=
  (StM.emit ShowProgress ;;
   imgs <- StM.gets images ;;
   forEach 0 imgs (processItem apiKey) ;;
   StM.emit (UpdateProgress 100 "Procesamiento completado") ;;
   StM.emit ShowResults ;;
   StM.emit (HideProgressAfter 800))%st.

End Batch.

(** ** Vocabulary of the statements *)

(** A path separator of either system. *)
Definition is_separator (c : ascii) : bool :=
  Ascii.eqb c slash || Ascii.eqb c backslash.

(** A string without any path separator: one path segment. *)
Definition segment (s : string) : Prop :=
  all_chars (fun c => negb (is_separator c)) s = true.

(** A directory prefix: empty, or ending with a separator. *)
Definition directory (d : string) : Prop :=
  d = "" \/ exists d' c, d = d' ++ String c "" /\ is_separator c = true.



(** The byte limit [maxSizeMB * 1024 * 1024]. *)
Definition byteLimit (maxSizeMB : Q) : Q := maxSizeMB * inject_Z (1024 * 1024).

(** A file of at most [limit] bytes, and a file of more than [limit] bytes. *)
Definition within_limit (limit : Q) (f : File.t) : bool :=
  Qle_bool (inject_Z (File.size f)) limit.
Definition over_limit (limit : Q) (f : File.t) : bool :=
  negb (Qle_bool (inject_Z (File.size f)) limit).

(** The failures of one [analyzeVision] call: the file cannot be read,
    the transport fails, the body is not JSON, the status is not ok, the
    body carries an [error] field. *)
Inductive Failure (x : Exchange) : Prop :=
| encoding_failure : read x = ReadError -> Failure x
| transport_failure e : fetched x = Throws e -> Failure x
| malformed_json r e :
    fetched x = Returns r -> Response.json r = Throws e -> Failure x
| bad_status r : fetched x = Returns r -> Response.ok r = false -> Failure x
| error_field r j e :
    fetched x = Returns r -> Response.json r = Returns j ->
    Body.error j = Some e -> Failure x.

(** The result object of a failed call. *)
Definition failure_result (msg : string) : Vision.t :=
  {| Vision.labels := []; Vision.description := ""; Vision.error := Some msg |}.



(** The events that [analyzeVision] and [imageToBase64] cause. *)
Definition client_event (ev : Event) : bool :=
  match ev with
  | Fetch _ _ | ConsoleError _ | Alert (ReadFailed _) => true
  | _ => false
  end.

(** *** Observations of a run *)

(** The events selected by [pick], in call order. *)
Fixpoint collect {A : Type} (pick : Event -> option A) (evs : list Event)
  : list A :=
  match evs with
  | [] => []
  | ev :: rest =>
      match pick ev with
      | Some a => a :: collect pick rest
      | None => collect pick rest
      end
  end.


(** The delays awaited. *)
Definition sleeps : list Event -> list Z :=
  collect (fun ev => match ev with Sleep ms => Some ms | _ => None end).

(** The item statuses set. *)
Definition statuses : list Event -> list (nat * string) :=
  collect (fun ev =>
             match ev with UpdateItemStatus i st => Some (i, st) | _ => None end).

(** The rows appended to the results table. *)
Definition rows : list Event -> list Meta.t :=
  collect (fun ev => match ev with AppendRow m => Some m | _ => None end).

(** Every [alert]. *)
Definition alerts : list Event -> list AlertMsg :=
  collect (fun ev => match ev with Alert a => Some a | _ => None end).

(** The alerts of [processWithVision] itself: file name and error text. *)
Definition processing_alerts : list Event -> list (string * string) :=
  collect (fun ev =>
             match ev with
             | Alert (ProcessingFailed n e) => Some (n, e)
             | _ => None
             end).

(** The items of a run: each image with its index, from [start]. *)
Definition indexed (start : nat) (files : list File.t) : list (nat * File.t) :=
  combine (seq start (List.length files)) files.

(** The percentage emitted for the item at index [i] of [n]. *)
Definition percentAt (n i : nat) : Q :=
  (inject_Z (Z.of_nat (i + 1)) / inject_Z (Z.of_nat n)) * 100.

(** A result that carries an error. *)
Definition failed (v : Vision.t) : bool :=
  match Vision.error v with Some _ => true | None => false end.

(** The state with [recs] pushed to [processedData]. *)
Definition pushed (s : State) (recs : list Meta.t) : State :=
  {| images := images s;
     processedData := (processedData s ++ recs)%list;
     MAX_FILE_SIZE_MB := MAX_FILE_SIZE_MB s |}.

Section RunVocabulary.

Variable extractMetadata : File.t -> Meta.t.
Variable world : nat -> File.t -> string -> Exchange.
Variable apiKey : string.

(** The exchange of an item and the object [analyzeVision] returns for
    it ([analyzeVision] always returns, see [analyzeVision_returns]). *)
Definition exchangeOf (p : nat * File.t) : Exchange :=
  world (fst p) (snd p) apiKey.

Definition outcome (p : nat * File.t) : Vision.t :=
  match io_result (analyzeVision (snd p) apiKey (exchangeOf p)) with
  | Returns v => v
  | Throws _ => failure_result ""
  end.

(** The row built for an item. *)
Definition recordOf (p : nat * File.t) : Meta.t :=
  buildRecord (extractMetadata (snd p)) (outcome p).

(** The items whose result carries no error, and those whose result
    carries one. *)
Definition completedItems (files : list File.t) : list (nat * File.t) :=
  filter (fun p => negb (failed (outcome p))) (indexed 0 files).
Definition failedItems (files : list File.t) : list (nat * File.t) :=
  filter (fun p => failed (outcome p)) (indexed 0 files).

(** The items whose file cannot be read. *)
Definition unreadable (p : nat * File.t) : bool :=
  match read (exchangeOf p) with ReadError => true | Loaded _ => false end.

(** The rows an item pushes and the events of its iteration. *)
Definition itemRecords (p : nat * File.t) : list Meta.t :=
  if failed (outcome p) then [] else [recordOf p].

Definition itemEvents (n : nat) (p : nat * File.t) : list Event :=
  (UpdateProgress (percentAt n (fst p)) ("Procesando " ++ File.name (snd p))
   :: io_events (analyzeVision (snd p) apiKey (exchangeOf p))
   ++ match Vision.error (outcome p) with
      | Some err => [Alert (ProcessingFailed (File.name (snd p)) err);
                     UpdateItemStatus (fst p) "error"]
      | None => [AppendRow (recordOf p);
                 UpdateItemStatus (fst p) "completed";
                 Sleep 200]
      end)%list.

(** The shape of the events of one iteration: they end with the status
    of the item, followed by the 200 ms delay exactly when the item
    completed. *)
Definition iteration (p : nat * File.t) (chunk : list Event) : Prop :=
  exists pre,
    sleeps pre = [] /\
    chunk = (pre ++ if failed (outcome p)
                    then [UpdateItemStatus (fst p) "error"]
                    else [UpdateItemStatus (fst p) "completed"; Sleep 200])%list.

End RunVocabulary.

(** The text of the error a result carries (empty when it carries none). *)
Definition errorText (v : Vision.t) : string :=
  match Vision.error v with Some err => err | None => "" end.

(** The three events that end every run. *)
Definition closing : list Event :=
  [UpdateProgress 100 "Procesamiento completado"; ShowResults; HideProgressAfter 800].

(** The service answered and the answer passes line 178. *)
Definition accepted (x : Exchange) (r : Response.t) (j : Body.t) : Prop :=
  (exists result, read x = Loaded result) /\
  fetched x = Returns r /\ Response.json r = Returns j /\
  Response.ok r = true /\ Body.error j = None.

(** *** The percentages in binary64 arithmetic *)

(** The binary64 value of a natural number. *)
Definition number64 (n : nat) : spec_float :=
  binary_normalize 53 1024 (Z.of_nat n) 0 false.

(** [((i + 1) / n) * 100] evaluated in binary64, as the engine does. *)
Definition percent64 (n i : nat) : spec_float :=
  SFmul 53 1024 (SFdiv 53 1024 (number64 (i + 1)) (number64 n)) (number64 100).

Fixpoint increasing64 (l : list spec_float) : bool :=
  match l with
  | a :: (b :: _) as rest => SFltb a b && increasing64 rest
  | _ => true
  end.

(** For [n] images: the binary64 percentages of the loop are strictly
    increasing and the last one is exactly 100. *)
Definition progress64_ok (n : nat) : bool :=
  increasing64 (map (percent64 n) (seq 0 n))
  && SFeqb (percent64 n (n - 1)) (number64 100).

(** ** Sample inputs *)

Module Sample.

(** Binary64 values of the literals 0.9 and 0.5. *)
Definition lit_0_9 : spec_float := S754_finite false 8106479329266893 (-53).
Definition lit_0_5 : spec_float := S754_finite false 4503599627370496 (-53).

Definition cat : File.t :=
  {| File.name := "cat.jpg"; File.size := 5 * 1024 * 1024; File.content := "c" |}.
Definition dog : File.t :=
  {| File.name := "dog.jpg"; File.size := 1 * 1024 * 1024; File.content := "d" |}.
Definition owl : File.t :=
  {| File.name := "owl.jpg"; File.size := 10 * 1024 * 1024; File.content := "o" |}.
Definition big : File.t :=
  {| File.name := "big.jpg"; File.size := 5 * 1024 * 1024 + 1; File.content := "b" |}.

(** A metadata probe: the row of a file kept under [photos/animals/]. *)
Definition extractMetadata (f : File.t) : Meta.t :=
  {| Meta.name := File.name f;
     Meta.path := "photos/animals/" ++ File.name f;
     Meta.size := File.size f;
     Meta.width := 640; Meta.height := 480;
     Meta.description := ""; Meta.category_slug := ""; Meta.tags := "" |}.

Definition labels : list Label.t :=
  [ {| Label.description := "Cat"; Label.score := Some lit_0_9 |};
    {| Label.description := "Animal"; Label.score := Some lit_0_5 |} ].

Definition body_ok : Body.t :=
  {| Body.error := None;
     Body.responses :=
       Some [ {| Body.labelAnnotations := Some labels;
                 Body.webDetection :=
                   Some {| Body.bestGuessLabels :=
                             Some [ {| Body.label := Some "a cat" |} ] |} |} ] |}.

Definition body_quota : Body.t :=
  {| Body.error := Some {| Body.message := Some "Quota exceeded" |};
     Body.responses := None |}.

Definition answer_ok : Exchange :=
  {| read := Loaded "data:image/jpeg;base64,AAAA";
     fetched := Returns {| Response.ok := true; Response.statusText := "OK";
                           Response.json := Returns body_ok |} |}.

Definition answer_quota : Exchange :=
  {| read := Loaded "data:image/jpeg;base64,AAAA";
     fetched := Returns {| Response.ok := false;
                           Response.statusText := "Too Many Requests";
                           Response.json := Returns body_quota |} |}.

Definition answer_unreadable : Exchange :=
  {| read := ReadError;
     fetched := Returns {| Response.ok := true; Response.statusText := "OK";
                           Response.json := Returns body_ok |} |}.

Definition answer_offline : Exchange :=
  {| read := Loaded "data:image/jpeg;base64,AAAA";
     fetched := Throws (mkException TypeError "Failed to fetch") |}.


(** A description of 120 characters. *)
Definition long_description : string :=
  "0123456789012345678901234567890123456789"
  ++ "0123456789012345678901234567890123456789"
  ++ "0123456789012345678901234567890123456789".

(** Every call succeeds. *)
Definition world_ok (i : nat) (f : File.t) (apiKey : string) : Exchange :=
  answer_ok.

(** Only the second item fails, with an answer of the service. *)
Definition world_second_quota (i : nat) (f : File.t) (apiKey : string) : Exchange :=
  if (i =? 1)%nat then answer_quota else answer_ok.

(** Only the second item fails, because its file cannot be read. *)
Definition world_second_unreadable (i : nat) (f : File.t) (apiKey : string)
  : Exchange :=
  if (i =? 1)%nat then answer_unreadable else answer_ok.

(** Every call is answered with a quota error. *)
Definition world_quota (i : nat) (f : File.t) (apiKey : string) : Exchange :=
  answer_quota.

Definition three : State :=
  {| images := [cat; dog; owl]; processedData := []; MAX_FILE_SIZE_MB := 5 |}.

Definition one : State :=
  {| images := [cat]; processedData := []; MAX_FILE_SIZE_MB := 5 |}.

End Sample.

(** ** The constructor and the event handlers *)

(** More primitives of the language. *)
Module JsText.

(** White space and line terminators among the code units of the model:
    tab, line feed, vertical tab, form feed, carriage return, space and
    no-break space. *)
Definition is_space (c : ascii) : bool :=
  let n := nat_of_ascii c in
  ((9 <=? n)%nat && (n <=? 13)%nat) || (n =? 32)%nat || (n =? 160)%nat.

(** [s.trimStart()] *)
Fixpoint trimStart (s : string) : string :=
  match s with
  | EmptyString => EmptyString
  | String c r => if is_space c then trimStart r else s
  end.

(** [s.trimEnd()] *)
Fixpoint trimEnd (s : string) : string :=
  match s with
  | EmptyString => EmptyString
  | String c r =>
      match trimEnd r with
      | EmptyString => if is_space c then EmptyString else String c EmptyString
      | r' => String c r'
      end
  end.

(** [s.trim()] *)
Definition trim (s : string) : string := trimEnd (trimStart s).

(** [s.startsWith(p)] *)
Definition startsWith (p s : string) : bool := prefix p s.

End JsText.

Import JsText.

(** A file of a [FileList], with the [type] the browser gives it. *)
Module Offered.
Record t : Type := make { file : File.t; type : string }.
End Offered.

(** A node of the document. *)
Inductive Element : Type :=
| Node (handle : nat).

(** Calls made by the constructor and by the listeners, besides those of
    the methods ([Page]). *)
Inductive UiEvent : Type :=
| PreventDefault
| StopPropagation
| RemoveDragover
| ConsoleMissing (id : string)
| AlertMissing (id : string)
| AlertNoImages
| AlertNoKey
| Page (ev : Event).

(** The ids of [initializeElements], line 11-15. *)
Definition requiredIds : list string :=
  [ "dropZone"; "fileInput"; "progressSection"; "progressFill"; "progressText";
    "previewSection"; "imageGrid"; "resultsSection"; "resultsTableBody";
    "downloadBtn"; "clearBtn"; "processBtn"; "visionApiKey" ].

(** The instance while and after it is constructed: the fields of the
    batch, the element fields [this[id]] in assignment order,
    [allElementsPresent], and whether [bindEvents] has run. *)
Record Processor : Type := mkProcessor {
  fields : State;
  elements : list (string * option Element);
  allElementsPresent : bool;
  bound : bool
}.

(** The body of the loop of [initializeElements], lines 18-23. *)
Definition lookupElement (document : string -> option Element) (id : string)
           (acc : list UiEvent * Processor) : list UiEvent * Processor :=
  let (evs, p) := acc in
  let found := document id in
  let p := {| fields := fields p;
              elements := (elements p ++ [(id, found)])%list;
              allElementsPresent := allElementsPresent p;
              bound := bound p |} in
  match found with
  | Some _ => (evs, p)
  | None =>
      ((evs ++ [ConsoleMissing id; AlertMissing id])%list,
       {| fields := fields p;
          elements := elements p;
          allElementsPresent := false;
          bound := bound p |})
  end.

(** [initializeElements()], lines 10-25. *)
Definition initializeElements (document : string -> option Element)
           (p : Processor) : list UiEvent * Processor :=
  fold_left (fun acc id => lookupElement document id acc)
            requiredIds
            ([], {| fields := fields p;
                    elements := elements p;
                    allElementsPresent := true;
                    bound := bound p |}).

(** [new ImageProcessor()], lines 2-8: [bindEvents] runs only when every
    element was found. *)
Definition construct (document : string -> option Element)
  : list UiEvent * Processor :=
  let p0 := {| fields := {| images := []; processedData := [];
                            MAX_FILE_SIZE_MB := 5 |};
               elements := [];
               allElementsPresent := false;
               bound := false |} in
  let (evs, p) := initializeElements document p0 in
  if allElementsPresent p
  then (evs, {| fields := fields p; elements := elements p;
                allElementsPresent := allElementsPresent p; bound := true |})
  else (evs, p).

(** Lines 62-65 and 73-76, shared by the drop and the change listeners:
    keep the files whose type starts with "image" and, when one is left,
    call [prepareFiles]. *)
Definition takeFiles (offered : list Offered.t) : M unit :=
  let files :=
    map Offered.file
        (filter (fun f => startsWith "image" (Offered.type f)) offered) in
  if negb (List.length files =? 0)%nat then prepareFiles files else StM.ret tt.

(** What a listener does to the instance fields, with the calls it makes. *)
Definition Listener : Type := State -> list UiEvent * State.

(** The [change] listener of the file input, lines 72-77. *)
Definition onChange (offered : list Offered.t) : Listener :=
  fun s =>
    let r := takeFiles offered s in
    (map Page (events r), final r).

(** The [drop] listener of the drop zone, lines 58-66. *)
Definition onDrop (offered : list Offered.t) : Listener :=
  fun s =>
    let r := takeFiles offered s in
    ((PreventDefault :: StopPropagation :: RemoveDragover
      :: map Page (events r))%list,
     final r).

Section Click.

Variable extractMetadata : File.t -> Meta.t.
Variable world : nat -> File.t -> string -> Exchange.

(** The [click] listener of the process button, lines 83-89, for the text
    [value] of the key input.  The run it starts is followed to its end. *)
Definition onProcessClick (value : string) : Listener :=
  fun s =>
    if (List.length (images s) =? 0)%nat then ([AlertNoImages], s)
    else
      let key := trim value in
      if negb (truthy key) then ([AlertNoKey], s)
      else
        let r := processWithVision extractMetadata world key s in
        (map Page (events r), final r).

End Click.

(** A listener of an instance: registered by [bindEvents], so without
    effect when [bindEvents] has not run. *)
Definition dispatch (l : Listener) (p : Processor) : list UiEvent * Processor :=
  if bound p then
    let (evs, s) := l (fields p) in
    (evs, {| fields := s; elements := elements p;
             allElementsPresent := allElementsPresent p; bound := bound p |})
  else ([], p).

(** *** More observations *)

(** The requests sent: key and encoded image. *)
Definition fetches : list Event -> list (string * option string) :=
  collect (fun ev => match ev with Fetch k c => Some (k, c) | _ => None end).

(** The events of the methods among the calls of a listener. *)
Fixpoint pageEvents (evs : list UiEvent) : list Event :=
  match evs with
  | [] => []
  | Page ev :: rest => ev :: pageEvents rest
  | _ :: rest => pageEvents rest
  end.



(** A string made of white space only. *)
Definition blank (s : string) : Prop := all_chars is_space s = true.

(** A string without comma. *)
Definition comma_free (s : string) : Prop :=
  all_chars (fun c => negb (Ascii.eqb c comma)) s = true.

(** The encoded image sent for an item whose file is read. *)
Definition payloadOf (x : Exchange) : option string :=
  match read x with
  | Loaded result => nth_error (split comma result) 1
  | ReadError => None
  end.

Module SampleUi.

(** A document with every element but the key input. *)
Definition document_without_key (id : string) : option Element :=
  if String.eqb id "visionApiKey" then None else Some (Node (String.length id)).

(** A complete document. *)
Definition document_complete (id : string) : option Element :=
  Some (Node (String.length id)).

Definition photo : Offered.t :=
  {| Offered.file := Sample.dog; Offered.type := "image/jpeg" |}.
Definition huge_photo : Offered.t :=
  {| Offered.file := Sample.owl; Offered.type := "image/png" |}.
Definition notes : Offered.t :=
  {| Offered.file := {| File.name := "notes.txt"; File.size := 12;
                        File.content := "n" |};
     Offered.type := "text/plain" |}.

(** A state with a previous batch and its results. *)
Definition busy : State :=
  {| images := [Sample.cat];
     processedData := [Sample.extractMetadata Sample.cat];
     MAX_FILE_SIZE_MB := 5 |}.

End SampleUi.

(** ** Strings *)

Lemma append_nil_r (s : string) : s ++ "" = s.
Proof. induction s as [|c s IH]; simpl; [reflexivity | now rewrite IH]. Qed.

Lemma append_assoc (a b c : string) : (a ++ b) ++ c = a ++ (b ++ c).
Proof. induction a as [|x a IH]; simpl; [reflexivity | now rewrite IH]. Qed.

Lemma length_append (a b : string) :
  String.length (a ++ b) = (String.length a + String.length b)%nat.
Proof. induction a as [|x a IH]; simpl; [reflexivity | now rewrite IH]. Qed.

Lemma truthy_append_char (a : string) (c : ascii) (b : string) :
  truthy (a ++ String c b) = true.
Proof. destruct a; reflexivity. Qed.

Lemma map_chars_append (f : ascii -> ascii) (a b : string) :
  map_chars f (a ++ b) = map_chars f a ++ map_chars f b.
Proof. induction a as [|x a IH]; simpl; [reflexivity | now rewrite IH]. Qed.

Lemma split_not_nil (sep : ascii) (s : string) : split sep s <> [].
Proof.
  destruct s as [|c r]; simpl; [discriminate|].
  destruct (Ascii.eqb c sep); [discriminate|].
  destruct (split sep r); discriminate.
Qed.

Lemma split_append (sep : ascii) (a b : string) :
  split sep (a ++ String sep b) = (split sep a ++ split sep b)%list.
Proof.
  induction a as [|c a IH]; simpl.
  - now rewrite Ascii.eqb_refl.
  - destruct (Ascii.eqb c sep); [now rewrite IH|].
    rewrite IH. pose proof (split_not_nil sep a) as Hne.
    destruct (split sep a) as [|seg segs]; [contradiction | reflexivity].
Qed.

Lemma split_without_separator (sep : ascii) (s : string) :
  all_chars (fun c => negb (Ascii.eqb c sep)) s = true -> split sep s = [s].
Proof.
  induction s as [|c r IH]; simpl; [reflexivity|].
  intros H. apply andb_true_iff in H as [Hc Hr].
  apply negb_true_iff in Hc. rewrite Hc, (IH Hr). reflexivity.
Qed.

Lemma segment_normalized (s : string) :
  segment s -> replaceAll backslash slash s = s.
Proof.
  unfold segment, replaceAll.
  induction s as [|c r IH]; simpl; [reflexivity|].
  intros H. apply andb_true_iff in H as [Hc Hr].
  rewrite (IH Hr). unfold is_separator in Hc.
  apply negb_true_iff, orb_false_iff in Hc as [_ Hc]. now rewrite Hc.
Qed.

Lemma segment_no_slash (s : string) :
  segment s -> all_chars (fun c => negb (Ascii.eqb c slash)) s = true.
Proof.
  unfold segment.
  induction s as [|c r IH]; simpl; [reflexivity|].
  intros H. apply andb_true_iff in H as [Hc Hr].
  rewrite (IH Hr), andb_true_r. unfold is_separator in Hc.
  apply negb_true_iff, orb_false_iff in Hc as [Hc _]. now rewrite Hc.
Qed.

Lemma separator_normalized (c : ascii) :
  is_separator c = true ->
  (if Ascii.eqb c backslash then slash else c) = slash.
Proof.
  unfold is_separator. intros H.
  destruct (Ascii.eqb c backslash) eqn:Hb; [reflexivity|].
  rewrite orb_false_r in H. now apply Ascii.eqb_eq in H.
Qed.

Lemma split_segment (s : string) :
  segment s -> split slash (replaceAll backslash slash s) = [s].
Proof.
  intros H. rewrite (segment_normalized s H).
  apply split_without_separator, segment_no_slash, H.
Qed.

(** The parts of a path that ends with [slug], a separator and [base]. *)
Lemma split_two_last (dir slug base : string) (sep : ascii) :
  is_separator sep = true -> segment slug -> segment base -> directory dir ->
  exists front,
    split slash (replaceAll backslash slash (dir ++ slug ++ String sep base))
    = (front ++ [slug; base])%list.
Proof.
  intros Hsep Hslug Hbase Hdir.
  assert (Htail : split slash (replaceAll backslash slash (slug ++ String sep base))
                  = [slug; base]).
  { unfold replaceAll. rewrite map_chars_append. simpl.
    rewrite (separator_normalized sep Hsep), split_append.
    fold (replaceAll backslash slash slug). fold (replaceAll backslash slash base).
    now rewrite (split_segment slug Hslug), (split_segment base Hbase). }
  destruct Hdir as [-> | (d & c & -> & Hc)].
  - exists []. exact Htail.
  - exists (split slash (replaceAll backslash slash d)).
    rewrite append_assoc. simpl.
    unfold replaceAll at 1. rewrite map_chars_append. simpl.
    rewrite (separator_normalized c Hc), split_append.
    fold (replaceAll backslash slash d).
    fold (replaceAll backslash slash (slug ++ String sep base)).
    now rewrite Htail.
Qed.

(** Every path is a single segment, or ends with a segment, a separator
    and a last segment after a directory prefix. *)
Lemma path_shape (path : string) :
  segment path \/
  exists dir slug sep base,
    path = dir ++ slug ++ String sep base /\
    is_separator sep = true /\ segment slug /\ segment base /\ directory dir.
Proof.
  induction path as [|c p IH]; [now left|].
  destruct (is_separator c) eqn:Hc.
  - right. destruct IH as [Hseg | (dir & slug & sep & base & -> & Hsep & Hslug & Hbase & Hdir)].
    + exists "", "", c, p. repeat split; try assumption. now left.
    + destruct Hdir as [-> | (d & c' & -> & Hc')].
      * exists (String c ""), slug, sep, base. repeat split; try assumption.
        right. exists "", c. now split.
      * exists (String c d ++ String c' ""), slug, sep, base.
        repeat split; try assumption.
        right. exists (String c d), c'. now split.
  - destruct IH as [Hseg | (dir & slug & sep & base & -> & Hsep & Hslug & Hbase & Hdir)].
    + left. unfold segment in *. simpl. now rewrite Hc, Hseg.
    + right. destruct Hdir as [-> | (d & c' & -> & Hc')].
      * exists "", (String c slug), sep, base. repeat split; try assumption.
        -- unfold segment in *. simpl. now rewrite Hc, Hslug.
        -- now left.
      * exists (String c d ++ String c' ""), slug, sep, base.
        repeat split; try assumption.
        right. exists (String c d), c'. now split.
Qed.

(** C4. [getCategoryFromPath] is a total function of the path.  A path
    with no separator (a single segment, the empty path included) has the
    empty category.  A path made of a directory prefix, a segment [slug],
    a separator ('/' or '\') and a last segment has the lower-cased [slug]
    as category when [slug] matches [^[\w-]+$], and the empty string
    otherwise; every path has one of these two shapes.  In particular "photos/animals/cat.jpg" gives "animals", and
    "cat.jpg", "a/b!c/cat.jpg" and "" give "". *)
Theorem getCategoryFromPath_second_to_last_segment :
  (forall path, segment path -> getCategoryFromPath path = "") /\
  (forall path,
      segment path \/
      exists dir slug sep base,
        path = dir ++ slug ++ String sep base /\
        is_separator sep = true /\ segment slug /\ segment base /\
        directory dir) /\
  (forall dir slug base sep,
      is_separator sep = true -> segment slug -> segment base -> directory dir ->
      getCategoryFromPath (dir ++ slug ++ String sep base)
      = if test_word_hyphen slug then toLowerCase slug else "") /\
  getCategoryFromPath "photos/animals/cat.jpg" = "animals" /\
  getCategoryFromPath "cat.jpg" = "" /\
  getCategoryFromPath "a/b!c/cat.jpg" = "" /\
  getCategoryFromPath "" = "".
Proof.
  split; [|split; [exact path_shape|split; [|repeat split; reflexivity]]].
  - intros path H. unfold getCategoryFromPath.
    destruct (truthy path); [|reflexivity]. simpl.
    now rewrite (split_segment path H).
  - intros dir slug base sep Hsep Hslug Hbase Hdir. unfold getCategoryFromPath.
    assert (Hne : truthy (dir ++ slug ++ String sep base) = true)
      by (rewrite <- append_assoc; apply truthy_append_char).
    rewrite Hne. simpl negb. cbv iota.
    destruct (split_two_last dir slug base sep Hsep Hslug Hbase Hdir) as [front ->].
    assert (Hlen : (2 <=? List.length (front ++ [slug; base])%list)%nat = true).
    { apply Nat.leb_le. rewrite length_app. simpl. lia. }
    rewrite Hlen.
    replace (List.length (front ++ [slug; base])%list - 2)%nat with (List.length front)
      by (rewrite length_app; simpl; lia).
    rewrite app_nth2, Nat.sub_diag by lia. reflexivity.
Qed.

Lemma getCategoryFromPath_second_to_last_segment_witness :
  is_separator backslash = true /\ segment "Pics" /\ segment "x.png" /\
  directory (String "C" (String ":" (String backslash ""))) /\
  getCategoryFromPath
    (String "C" (String ":" (String backslash "")) ++ "Pics" ++ String backslash "x.png")
  = "pics".
Proof.
  assert (Hdir : directory (String "C" (String ":" (String backslash "")))).
  { right. exists "C:", backslash. split; reflexivity. }
  split; [reflexivity|]. split; [reflexivity|]. split; [reflexivity|].
  split; [exact Hdir|].
  exact (proj1 (proj2 (proj2 getCategoryFromPath_second_to_last_segment))
               (String "C" (String ":" (String backslash ""))) "Pics" "x.png"
               backslash eq_refl eq_refl eq_refl Hdir).
Defined.

(** ** The file gate *)

Lemma sizeMB_le (f : File.t) (m : Q) :
  sizeMB f <= m <-> inject_Z (File.size f) <= byteLimit m.
Proof.
  unfold sizeMB, byteLimit.
  assert (Hpos : 0 < inject_Z (1024 * 1024)) by reflexivity.
  split; intros H.
  - apply (Qmult_le_r _ _ (inject_Z (1024 * 1024)) Hpos) in H.
    assert (E : inject_Z (File.size f) / inject_Z (1024 * 1024) * inject_Z (1024 * 1024)
                == inject_Z (File.size f)) by (field; discriminate).
    now rewrite E in H.
  - now apply Qle_shift_div_r.
Qed.

Lemma leQ_le (a b : Q) : leQ a b = true <-> a <= b.
Proof.
  unfold leQ. rewrite Qle_alt.
  destruct (a ?= b)%Q; split; intros H; try reflexivity; try discriminate.
  now contradiction H.
Qed.

Lemma gtQ_negb_leQ (a b : Q) : gtQ a b = negb (leQ a b).
Proof. unfold gtQ, leQ. now destruct (a ?= b)%Q. Qed.

Lemma leQ_sizeMB (f : File.t) (m : Q) :
  leQ (sizeMB f) m = within_limit (byteLimit m) f.
Proof.
  unfold within_limit. apply eq_true_iff_eq.
  now rewrite leQ_le, Qle_bool_iff, sizeMB_le.
Qed.

Lemma filter_complement_length {A : Type} (p : A -> bool) (l : list A) :
  List.length l
  = (List.length (filter p l) + List.length (filter (fun a => negb (p a)) l))%nat.
Proof.
  induction l as [|a l IH]; simpl; [reflexivity|].
  destruct (p a); simpl; lia.
Qed.

(** C8. [prepareFiles] keeps exactly the files of at most
    [MAX_FILE_SIZE_MB * 1024 * 1024] bytes (a file of exactly that size is
    kept, a larger one is dropped), in their input order; the files dropped
    are as many as the files strictly over the limit, and the warning is
    raised exactly when there is one.  With a 5 MB limit, files of 5 MB,
    1 MB and 10 MB leave the first two. *)
Theorem prepareFiles_keeps_files_within_limit :
  forall (files : list File.t) (s : State),
    let limit := byteLimit (MAX_FILE_SIZE_MB s) in
    let r := prepareFiles files s in
    completion r = Returns tt /\
    images (final r) = filter (within_limit limit) files /\
    (forall f, within_limit limit f = true <-> inject_Z (File.size f) <= limit) /\
    (forall f, over_limit limit f = true <-> limit < inject_Z (File.size f)) /\
    List.length files
    = (List.length (images (final r))
       + List.length (filter (over_limit limit) files))%nat /\
    (In (Alert (OversizedFiles (MAX_FILE_SIZE_MB s))) (events r)
     <-> filter (over_limit limit) files <> []) /\
    images (final (prepareFiles [Sample.cat; Sample.dog; Sample.owl] constructed))
    = [Sample.cat; Sample.dog].
Proof.
  intros files s limit r.
  assert (Hacc : images (final r) = filter (within_limit limit) files).
  { unfold r, prepareFiles, StM.bind, StM.gets, StM.modify, StM.emit, StM.ret.
    simpl. destruct (negb _); simpl;
      apply filter_ext; intros f; apply leQ_sizeMB. }
  assert (Hover : filter (fun f => gtQ (sizeMB f) (MAX_FILE_SIZE_MB s)) files
                  = filter (over_limit limit) files).
  { apply filter_ext. intros f. unfold over_limit.
    rewrite gtQ_negb_leQ, leQ_sizeMB. reflexivity. }
  split; [|split; [exact Hacc|split; [|split; [|split; [|split]]]]].
  - unfold r, prepareFiles, StM.bind, StM.gets, StM.modify, StM.emit, StM.ret.
    simpl. now destruct (negb _).
  - intros f. unfold within_limit. apply Qle_bool_iff.
  - intros f. unfold over_limit. rewrite negb_true_iff.
    split; intros H.
    + apply Qnot_le_lt. intros Hle. apply Qle_bool_iff in Hle. congruence.
    + destruct (Qle_bool (inject_Z (File.size f)) limit) eqn:E; [|reflexivity].
      apply Qle_bool_iff in E. now apply Qlt_not_le in H.
  - rewrite Hacc. apply filter_complement_length.
  - unfold r, prepareFiles, StM.bind, StM.gets, StM.modify, StM.emit, StM.ret.
    simpl. rewrite Hover. fold limit.
    destruct (filter (over_limit limit) files) as [|f0 fs]; simpl.
    + split; [intros [H|[H|[]]]; discriminate | intros H; now contradiction H].
    + split; [discriminate | intros _; now left].
  - reflexivity.
Qed.

Lemma prepareFiles_keeps_files_within_limit_witness :
  images (final (prepareFiles [Sample.big; Sample.cat; Sample.dog] constructed))
  = [Sample.cat; Sample.dog] /\
  within_limit (byteLimit 5) Sample.cat = true /\
  byteLimit 5 < inject_Z (File.size Sample.big).
Proof.
  pose proof (prepareFiles_keeps_files_within_limit
                [Sample.big; Sample.cat; Sample.dog] constructed)
    as (_ & Hkept & _ & Hover & _).
  split; [exact Hkept|]. split; [reflexivity|].
  apply (proj1 (Hover Sample.big)). reflexivity.
Defined.

(** ** The vision client *)

Lemma failure_text_truthy (e : Exception) :
  truthy (or (Js.message e) (String_of e)) = true.
Proof.
  destruct e as [c m]. unfold or, String_of. simpl.
  destruct m; simpl; [now destruct c | reflexivity].
Qed.

(** Every way an exchange can go, with the events and the result of the
    call. *)
Lemma analyzeVision_cases (file : File.t) (apiKey : string) (x : Exchange) :
  (read x = ReadError /\
   analyzeVision file apiKey x
   = mkIo [Alert (ReadFailed (File.name file));
           ConsoleError (mkException Error "Lectura fallida")]
          (Returns (failure_result "Lectura fallida"))) \/
  (exists result e,
      read x = Loaded result /\
      (fetched x = Throws e \/
       exists r, fetched x = Returns r /\ Response.json r = Throws e) /\
      analyzeVision file apiKey x
      = mkIo [Fetch apiKey (nth_error (split comma result) 1); ConsoleError e]
             (Returns (failure_result (or (Js.message e) (String_of e))))) \/
  (exists result r j,
      read x = Loaded result /\ fetched x = Returns r /\
      Response.json r = Returns j /\
      (Response.ok r = false \/ Body.error j <> None) /\
      analyzeVision file apiKey x
      = mkIo [Fetch apiKey (nth_error (split comma result) 1)]
             (Returns (failure_result
                         ("API: " ++ or_undef (error_message j)
                                              (or (Response.statusText r)
                                                  "Desconocido"))))) \/
  (exists result r j,
      read x = Loaded result /\ fetched x = Returns r /\
      Response.json r = Returns j /\
      Response.ok r = true /\ Body.error j = None /\
      analyzeVision file apiKey x
      = mkIo [Fetch apiKey (nth_error (split comma result) 1)]
             (Returns {| Vision.labels := response_labels j;
                         Vision.description := response_description j;
                         Vision.error := None |})).
Proof.
  destruct x as [rd ft]. destruct rd as [result|].
  2:{ left. split; reflexivity. }
  right. destruct ft as [r|e].
  2:{ left. exists result, e. repeat split. now left. }
  destruct r as [ok st js]. destruct js as [j|e].
  2:{ left. exists result, e. repeat split. right. eexists. split; reflexivity. }
  right. destruct j as [err resp].
  destruct ok, err as [a|].
  - left. exists result. do 2 eexists. repeat split. right. discriminate.
  - right. exists result. do 2 eexists. repeat split.
  - left. exists result. do 2 eexists. repeat split. now left.
  - left. exists result. do 2 eexists. repeat split. now left.
Qed.

Lemma analyzeVision_returns (file : File.t) (apiKey : string) (x : Exchange) :
  exists v, io_result (analyzeVision file apiKey x) = Returns v.
Proof.
  destruct (analyzeVision_cases file apiKey x)
    as [[_ E]|[(?&?&_&_&E)|[(?&?&?&_&_&_&_&E)|(?&?&?&_&_&_&_&_&E)]]];
    rewrite E; eexists; reflexivity.
Qed.

Lemma analyzeVision_error_truthy file apiKey x v err :
  io_result (analyzeVision file apiKey x) = Returns v ->
  Vision.error v = Some err -> truthy err = true.
Proof.
  destruct (analyzeVision_cases file apiKey x)
    as [[_ E]|[(?&e&_&_&E)|[(?&?&?&_&_&_&_&E)|(?&?&?&_&_&_&_&_&E)]]];
    rewrite E; simpl; intros Hv; injection Hv as <-; simpl; intros He;
    try discriminate; injection He as <-; try reflexivity.
  apply failure_text_truthy.
Qed.

Lemma analyzeVision_events (file : File.t) (apiKey : string) (x : Exchange) :
  forallb client_event (io_events (analyzeVision file apiKey x)) = true.
Proof.
  destruct (analyzeVision_cases file apiKey x)
    as [[_ E]|[(?&?&_&_&E)|[(?&?&?&_&_&_&_&E)|(?&?&?&_&_&_&_&_&E)]]];
    rewrite E; reflexivity.
Qed.

Lemma analyzeVision_accepted file apiKey x r j :
  accepted x r j ->
  io_result (analyzeVision file apiKey x)
  = Returns {| Vision.labels := response_labels j;
               Vision.description := response_description j;
               Vision.error := None |}.
Proof.
  intros ((d&Hr)&Hf&Hj&Hok&Herr).
  destruct (analyzeVision_cases file apiKey x)
    as [[Hr' E]|[(d'&e&Hr'&Hf'&E)|[(d'&r'&j'&Hr'&Hf'&Hj'&Hbad&E)
                                  |(d'&r'&j'&Hr'&Hf'&Hj'&_&_&E)]]].
  - congruence.
  - destruct Hf' as [Hf'|(r'&Hf'&Hj')]; congruence.
  - assert (r' = r) by congruence. subst r'.
    assert (j' = j) by congruence. subst j'.
    destruct Hbad; congruence.
  - rewrite E. simpl. congruence.
Qed.

(** C2. [analyzeVision] returns a result object for every file, key and
    behaviour of the outside world, and never throws; when
    the file cannot be read, the transport fails, the body is not JSON, the
    status is not ok or the body carries an error field, the result is
    [{labels: [], description: "", error: msg}] with a non-empty [msg]; in
    every other case the result has no [error]. *)
Theorem analyzeVision_never_throws :
  forall (file : File.t) (apiKey : string) (x : Exchange),
  exists v,
    io_result (analyzeVision file apiKey x) = Returns v /\
    (Failure x -> exists msg, v = failure_result msg /\ truthy msg = true) /\
    (~ Failure x -> Vision.error v = None).
Proof.
  intros file apiKey x.
  destruct (analyzeVision_cases file apiKey x)
    as [[Hr E]|[(d&e&Hr&Hf&E)|[(d&r&j&Hr&Hf&Hj&Hbad&E)|(d&r&j&Hr&Hf&Hj&Hok&Herr&E)]]];
    rewrite E; eexists; (split; [reflexivity|]); split.
  - intros _. eexists. split; reflexivity.
  - intros H. contradiction H. now apply encoding_failure.
  - intros _. eexists. split; [reflexivity | apply failure_text_truthy].
  - intros H. contradiction H. destruct Hf as [Hf|(r&Hf&Hj)].
    + now apply transport_failure with e.
    + now apply malformed_json with r e.
  - intros _. eexists. split; reflexivity.
  - intros H. contradiction H. destruct Hbad as [Hbad|Hbad].
    + now apply bad_status with r.
    + destruct (Body.error j) as [a|] eqn:Ha; [|now contradiction Hbad].
      now apply error_field with r j a.
  - intros [H|e H|r' e H H'|r' H H'|r' j' e H H' H''].
    + congruence.
    + congruence.
    + congruence.
    + congruence.
    + congruence.
  - intros _. reflexivity.
Qed.

Lemma analyzeVision_never_throws_witness :
  Failure Sample.answer_unreadable /\
  exists v,
    io_result (analyzeVision Sample.dog "k" Sample.answer_unreadable) = Returns v /\
    exists msg, v = failure_result msg /\ truthy msg = true.
Proof.
  assert (Hfail : Failure Sample.answer_unreadable)
    by (apply encoding_failure; reflexivity).
  split; [exact Hfail|].
  destruct (analyzeVision_never_throws Sample.dog "k" Sample.answer_unreadable)
    as (v & Hv & Hshape & _).
  exists v. split; [exact Hv | exact (Hshape Hfail)].
Defined.




(** ** The record builder *)


Lemma substring0_prefix (n : nat) (s : string) :
  exists rest, s = substring0 n s ++ rest.
Proof.
  unfold substring0. revert s.
  induction n as [|n IH]; intros s.
  - exists s. now destruct s.
  - destruct s as [|c s]; simpl; [now exists ""|].
    destruct (IH s) as [rest Hrest]. exists rest. now rewrite <- Hrest.
Qed.

Lemma substring0_length (n : nat) (s : string) :
  String.length (substring0 n s) = Nat.min n (String.length s).
Proof.
  unfold substring0. revert s.
  induction n as [|n IH]; intros s.
  - now destruct s.
  - destruct s as [|c s]; simpl; [reflexivity | now rewrite IH].
Qed.

Lemma description_of_record (meta : Meta.t) (vision : Vision.t) :
  Meta.description (buildRecord meta vision)
  = substring0 100 (Vision.description vision).
Proof.
  unfold buildRecord. cbn [Meta.description].
  now destruct (Vision.description vision).
Qed.



(** C9. The [description] field written for a result without error is the
    prefix of the vision description of length min(100, its length): a
    description longer than 100 characters becomes its first 100 characters
    exactly, with nothing appended, a shorter one is kept whole, and an
    empty one stays empty.  When the accepted answer of the service has no
    best-guess label, the description of the result, and so of the record,
    is empty. *)
Theorem buildRecord_description_first_100 :
  (forall (meta : Meta.t) (vision : Vision.t),
      let d := Vision.description vision in
      let d' := Meta.description (buildRecord meta vision) in
      (exists rest, d = d' ++ rest) /\
      String.length d' = Nat.min 100 (String.length d) /\
      ((100 < String.length d)%nat -> String.length d' = 100%nat) /\
      ((String.length d <= 100)%nat -> d' = d) /\
      (d = "" -> d' = "")) /\
  (forall file apiKey x r j meta,
      accepted x r j -> best_guess_label j = None ->
      exists v,
        io_result (analyzeVision file apiKey x) = Returns v /\
        Vision.error v = None /\
        Vision.description v = "" /\
        Meta.description (buildRecord meta v) = "").
Proof.
  split.
  - intros meta vision d d'. unfold d'. rewrite description_of_record. fold d.
    pose proof (substring0_prefix 100 d) as [rest Hrest].
    pose proof (substring0_length 100 d) as Hlen.
    split; [now exists rest|]. split; [exact Hlen|].
    split; [intros H; rewrite Hlen; lia|]. split.
    + intros H. rewrite Nat.min_r in Hlen by exact H.
      assert (Hr : String.length rest = 0%nat).
      { apply (f_equal String.length) in Hrest.
        rewrite length_append in Hrest. lia. }
      destruct rest; [|discriminate]. now rewrite append_nil_r in Hrest.
    + intros ->. reflexivity.
  - intros file apiKey x r j meta Hacc Hnone.
    eexists. split; [apply (analyzeVision_accepted file apiKey x r j Hacc)|].
    unfold response_description. rewrite Hnone. repeat split.
Qed.

Lemma buildRecord_description_first_100_witness :
  (100 < String.length Sample.long_description)%nat /\
  String.length
    (Meta.description
       (buildRecord (Sample.extractMetadata Sample.cat)
                    {| Vision.labels := [];
                       Vision.description := Sample.long_description;
                       Vision.error := None |}))
  = 100%nat.
Proof.
  assert (Hlong : (100 < String.length Sample.long_description)%nat)
    by (apply Nat.ltb_lt; reflexivity).
  split; [exact Hlong|].
  exact (proj1 (proj2 (proj2 (proj1 buildRecord_description_first_100
                                    (Sample.extractMetadata Sample.cat)
                                    {| Vision.labels := [];
                                       Vision.description := Sample.long_description;
                                       Vision.error := None |})))
               Hlong).
Defined.

(** ** The batch loop *)

Lemma pushed_nil (s : State) : pushed s [] = s.
Proof. destruct s. unfold pushed. simpl. now rewrite app_nil_r. Qed.

Lemma pushed_pushed (s : State) (a b : list Meta.t) :
  pushed (pushed s a) b = pushed s (a ++ b)%list.
Proof. unfold pushed. simpl. now rewrite app_assoc. Qed.

Lemma indexed_cons (i : nat) (f : File.t) (rest : list File.t) :
  indexed i (f :: rest) = (i, f) :: indexed (S i) rest.
Proof. reflexivity. Qed.


Section Loop.

Variable extractMetadata : File.t -> Meta.t.
Variable world : nat -> File.t -> string -> Exchange.
Variable apiKey : string.

Lemma outcome_returned (p : nat * File.t) :
  io_result (analyzeVision (snd p) apiKey (exchangeOf world apiKey p))
  = Returns (outcome world apiKey p).
Proof.
  unfold outcome.
  destruct (analyzeVision_returns (snd p) apiKey (exchangeOf world apiKey p))
    as [v Hv].
  now rewrite Hv.
Qed.

Lemma outcome_error_truthy (p : nat * File.t) (err : string) :
  Vision.error (outcome world apiKey p) = Some err -> truthy err = true.
Proof.
  apply (analyzeVision_error_truthy (snd p) apiKey (exchangeOf world apiKey p)).
  apply outcome_returned.
Qed.

(** One iteration: its events, its normal completion, the rows pushed. *)
Lemma processItem_run (i : nat) (file : File.t) (s : State) :
  processItem extractMetadata world apiKey i file s
  = mkRun (itemEvents extractMetadata world apiKey (List.length (images s)) (i, file))
          (Returns tt)
          (pushed s (itemRecords extractMetadata world apiKey (i, file))).
Proof.
  pose proof (outcome_returned (i, file)) as Hret.
  pose proof (outcome_error_truthy (i, file)) as Htruthy.
  unfold itemEvents, itemRecords, recordOf, failed.
  unfold processItem, StM.bind, StM.gets, StM.emit, StM.lift, StM.modify.
  cbn [events completion final fst snd app] in *.
  unfold exchangeOf in *. cbn [fst snd] in *.
  rewrite Hret. cbn [events completion final fst snd app].
  destruct (Vision.error (outcome world apiKey (i, file))) as [err|] eqn:Herr.
  - rewrite (Htruthy err eq_refl). cbn [events completion final app].
    rewrite pushed_nil. reflexivity.
  - cbn [events completion final app]. reflexivity.
Qed.

(** The loop from index [i] over the remaining images. *)
Lemma forEach_run (rest : list File.t) :
  forall (i : nat) (s : State),
    forEach i rest (processItem extractMetadata world apiKey) s
    = mkRun (flat_map (itemEvents extractMetadata world apiKey
                                  (List.length (images s)))
                      (indexed i rest))
            (Returns tt)
            (pushed s (flat_map (itemRecords extractMetadata world apiKey)
                                (indexed i rest))).
Proof.
  induction rest as [|file rest IH]; intros i s.
  - simpl. unfold StM.ret. now rewrite pushed_nil.
  - rewrite indexed_cons. cbn [forEach flat_map]. unfold StM.bind.
    rewrite processItem_run. cbn [events completion final].
    rewrite IH. cbn [events completion final].
    rewrite pushed_pushed. reflexivity.
Qed.

(** The whole run. *)
Lemma processWithVision_run (s : State) :
  processWithVision extractMetadata world apiKey s
  = mkRun (ShowProgress
           :: flat_map (itemEvents extractMetadata world apiKey
                                   (List.length (images s)))
                       (indexed 0 (images s))
           ++ [UpdateProgress 100 "Procesamiento completado";
               ShowResults; HideProgressAfter 800])%list
          (Returns tt)
          (pushed s (flat_map (itemRecords extractMetadata world apiKey)
                              (indexed 0 (images s)))).
Proof.
  unfold processWithVision, StM.bind, StM.gets, StM.emit.
  cbn [events completion final app].
  rewrite forEach_run. cbn [events completion final app].
  reflexivity.
Qed.

End Loop.

(** ** Observations of a run *)

Lemma collect_app {A : Type} (pick : Event -> option A) (a b : list Event) :
  collect pick (a ++ b)%list = (collect pick a ++ collect pick b)%list.
Proof.
  induction a as [|ev a IH]; simpl; [reflexivity|].
  destruct (pick ev); simpl; now rewrite IH.
Qed.

Lemma collect_flat_map {A B : Type} (pick : Event -> option A)
      (f : B -> list Event) (l : list B) :
  collect pick (flat_map f l) = flat_map (fun b => collect pick (f b)) l.
Proof.
  induction l as [|b l IH]; simpl; [reflexivity|].
  now rewrite collect_app, IH.
Qed.

Lemma collect_none {A : Type} (pick : Event -> option A) (evs : list Event) :
  (forall ev, In ev evs -> pick ev = None) -> collect pick evs = [].
Proof.
  induction evs as [|ev evs IH]; intros H; simpl; [reflexivity|].
  rewrite (H ev (or_introl eq_refl)). apply IH. intros ev' Hin. apply H. now right.
Qed.

(** A pick that ignores the events of the vision client sees none of them. *)
Lemma collect_client {A : Type} (pick : Event -> option A) (evs : list Event) :
  (forall ev, client_event ev = true -> pick ev = None) ->
  forallb client_event evs = true -> collect pick evs = [].
Proof.
  intros Hpick Hall. apply collect_none. intros ev Hin. apply Hpick.
  rewrite forallb_forall in Hall. now apply Hall.
Qed.

Lemma flat_map_single {A B : Type} (g : A -> B) (l : list A) :
  flat_map (fun a => [g a]) l = map g l.
Proof. induction l as [|a l IH]; simpl; [reflexivity | now rewrite IH]. Qed.

Lemma flat_map_unless {A B : Type} (skip : A -> bool) (g : A -> B) (l : list A) :
  flat_map (fun a => if skip a then [] else [g a]) l
  = map g (filter (fun a => negb (skip a)) l).
Proof.
  induction l as [|a l IH]; simpl; [reflexivity|].
  destruct (skip a); simpl; now rewrite IH.
Qed.

Lemma flat_map_when {A B : Type} (keep : A -> bool) (g : A -> list B) (l : list A) :
  flat_map (fun a => if keep a then g a else []) l
  = flat_map g (filter keep l).
Proof.
  induction l as [|a l IH]; simpl; [reflexivity|].
  destruct (keep a); simpl; now rewrite IH.
Qed.

(** Closes the side condition of [collect_client] by cases on the event. *)
Ltac client_blind :=
  let ev := fresh "ev" in
  let H := fresh "H" in
  intros ev H; destruct ev as [| | [| |] | | | | | | | | |];
  (reflexivity || discriminate H).

Section Observations.

Variable extractMetadata : File.t -> Meta.t.
Variable world : nat -> File.t -> string -> Exchange.
Variable apiKey : string.

Lemma collect_client_item {A : Type} (pick : Event -> option A)
      (p : nat * File.t) :
  (forall ev, client_event ev = true -> pick ev = None) ->
  collect pick
          (io_events (analyzeVision (snd p) apiKey (exchangeOf world apiKey p)))
  = [].
Proof.
  intros H. apply collect_client; [exact H | apply analyzeVision_events].
Qed.


Lemma sleeps_item (n : nat) (p : nat * File.t) :
  sleeps (itemEvents extractMetadata world apiKey n p)
  = if failed (outcome world apiKey p) then [] else [200%Z].
Proof.
  unfold sleeps, itemEvents, failed. cbn [collect]. rewrite collect_app.
  rewrite collect_client_item by client_blind.
  now destruct (Vision.error _).
Qed.

Lemma statuses_item (n : nat) (p : nat * File.t) :
  statuses (itemEvents extractMetadata world apiKey n p)
  = [(fst p, if failed (outcome world apiKey p) then "error" else "completed")].
Proof.
  unfold statuses, itemEvents, failed. cbn [collect]. rewrite collect_app.
  rewrite collect_client_item by client_blind.
  now destruct (Vision.error _).
Qed.

Lemma rows_item (n : nat) (p : nat * File.t) :
  rows (itemEvents extractMetadata world apiKey n p)
  = itemRecords extractMetadata world apiKey p.
Proof.
  unfold rows, itemEvents, itemRecords, failed. cbn [collect].
  rewrite collect_app.
  rewrite collect_client_item by client_blind.
  now destruct (Vision.error _).
Qed.

Lemma processing_alerts_item (n : nat) (p : nat * File.t) :
  processing_alerts (itemEvents extractMetadata world apiKey n p)
  = match Vision.error (outcome world apiKey p) with
    | Some err => [(File.name (snd p), err)]
    | None => []
    end.
Proof.
  unfold processing_alerts, itemEvents. cbn [collect]. rewrite collect_app.
  rewrite collect_client_item by client_blind.
  now destruct (Vision.error _).
Qed.

Lemma alerts_of_client (p : nat * File.t) :
  alerts (io_events (analyzeVision (snd p) apiKey (exchangeOf world apiKey p)))
  = if unreadable world apiKey p then [ReadFailed (File.name (snd p))] else [].
Proof.
  unfold unreadable.
  destruct (analyzeVision_cases (snd p) apiKey (exchangeOf world apiKey p))
    as [[Hr E]|[(?&?&Hr&_&E)|[(?&?&?&Hr&_&_&_&E)|(?&?&?&Hr&_&_&_&_&E)]]];
    rewrite E, Hr; reflexivity.
Qed.

Lemma alerts_item (n : nat) (p : nat * File.t) :
  alerts (itemEvents extractMetadata world apiKey n p)
  = ((if unreadable world apiKey p then [ReadFailed (File.name (snd p))] else [])
     ++ match Vision.error (outcome world apiKey p) with
        | Some err => [ProcessingFailed (File.name (snd p)) err]
        | None => []
        end)%list.
Proof.
  unfold itemEvents. unfold alerts at 1. cbn [collect]. rewrite collect_app.
  fold alerts. rewrite alerts_of_client.
  now destruct (Vision.error _).
Qed.

(** An unreadable file always gives a result with an error. *)
Lemma unreadable_failed (p : nat * File.t) :
  unreadable world apiKey p = true -> failed (outcome world apiKey p) = true.
Proof.
  unfold unreadable, failed. intros H.
  pose proof (outcome_returned world apiKey p) as Hret.
  destruct (analyzeVision_cases (snd p) apiKey (exchangeOf world apiKey p))
    as [[Hr E]|[(?&?&Hr&_&E)|[(?&?&?&Hr&_&_&_&E)|(?&?&?&Hr&_&_&_&_&E)]]];
    rewrite Hr in H; try discriminate H.
  rewrite E in Hret. simpl in Hret. injection Hret as <-. reflexivity.
Qed.

Lemma iteration_item (n : nat) (p : nat * File.t) :
  iteration world apiKey p (itemEvents extractMetadata world apiKey n p).
Proof.
  unfold iteration, itemEvents, failed.
  destruct (Vision.error (outcome world apiKey p)) as [err|].
  - exists (UpdateProgress (percentAt n (fst p)) ("Procesando " ++ File.name (snd p))
            :: io_events (analyzeVision (snd p) apiKey (exchangeOf world apiKey p))
            ++ [Alert (ProcessingFailed (File.name (snd p)) err)])%list.
    split.
    + unfold sleeps. cbn [collect]. rewrite collect_app.
      now rewrite collect_client_item by client_blind.
    + cbn [app]. now rewrite <- app_assoc.
  - exists (UpdateProgress (percentAt n (fst p)) ("Procesando " ++ File.name (snd p))
            :: io_events (analyzeVision (snd p) apiKey (exchangeOf world apiKey p))
            ++ [AppendRow (recordOf extractMetadata world apiKey p)])%list.
    split.
    + unfold sleeps. cbn [collect]. rewrite collect_app.
      now rewrite collect_client_item by client_blind.
    + cbn [app]. now rewrite <- app_assoc.
Qed.

End Observations.

(** ** Progress *)






(** The same sequence evaluated in binary64, the arithmetic of the engine:
    for every run of 1 to 100 images the percentages of the loop are strictly
    increasing and the last one is exactly 100. *)
Lemma progress64_up_to_100 : forallb progress64_ok (seq 1 100) = true.
Proof. vm_compute. reflexivity. Qed.

(** ** Failed items, delays and repeated runs *)

Lemma Forall2_map_right {A B : Type} (R : A -> B -> Prop) (f : A -> B)
      (l : list A) :
  (forall a, R a (f a)) -> Forall2 R l (map f l).
Proof.
  intros H. induction l as [|a l IH]; simpl; constructor; [apply H | exact IH].
Qed.

Lemma flat_map_two_lists_length {A B : Type} (u f : A -> bool)
      (x y : A -> B) (l : list A) :
  List.length (flat_map (fun a => (if u a then [x a] else [])
                                   ++ (if f a then [y a] else []))%list l)
  = (List.length (filter f l) + List.length (filter u l))%nat.
Proof.
  induction l as [|a l IH]; simpl; [reflexivity|].
  rewrite length_app, IH. destruct (u a), (f a); simpl; lia.
Qed.

Lemma sleeps_run extractMetadata world apiKey (s : State) :
  sleeps (events (processWithVision extractMetadata world apiKey s))
  = map (fun _ => 200%Z) (completedItems world apiKey (images s)).
Proof.
  rewrite processWithVision_run. cbn [events].
  unfold sleeps at 1. cbn [collect]. rewrite collect_app, collect_flat_map.
  fold sleeps. cbn [collect app]. rewrite app_nil_r.
  rewrite (flat_map_ext _ _ (sleeps_item extractMetadata world apiKey _)).
  apply (flat_map_unless (fun p => failed (outcome world apiKey p))
                         (fun _ => 200%Z)).
Qed.

Lemma rows_run extractMetadata world apiKey (s : State) :
  rows (events (processWithVision extractMetadata world apiKey s))
  = map (recordOf extractMetadata world apiKey)
        (completedItems world apiKey (images s)).
Proof.
  rewrite processWithVision_run. cbn [events].
  unfold rows at 1. cbn [collect]. rewrite collect_app, collect_flat_map.
  fold rows. cbn [collect app]. rewrite app_nil_r.
  rewrite (flat_map_ext _ _ (rows_item extractMetadata world apiKey _)).
  apply (flat_map_unless (fun p => failed (outcome world apiKey p))).
Qed.

Lemma processedData_run extractMetadata world apiKey (s : State) :
  processedData (final (processWithVision extractMetadata world apiKey s))
  = (processedData s
     ++ map (recordOf extractMetadata world apiKey)
            (completedItems world apiKey (images s)))%list.
Proof.
  rewrite processWithVision_run. cbn [final pushed processedData].
  f_equal. apply (flat_map_unless (fun p => failed (outcome world apiKey p))).
Qed.

Lemma statuses_run extractMetadata world apiKey (s : State) :
  statuses (events (processWithVision extractMetadata world apiKey s))
  = map (fun p => (fst p, if failed (outcome world apiKey p)
                          then "error" else "completed"))
        (indexed 0 (images s)).
Proof.
  rewrite processWithVision_run. cbn [events].
  unfold statuses at 1. cbn [collect]. rewrite collect_app, collect_flat_map.
  fold statuses. cbn [collect app]. rewrite app_nil_r.
  rewrite (flat_map_ext _ _ (statuses_item extractMetadata world apiKey _)).
  apply flat_map_single.
Qed.

Lemma processing_alerts_run extractMetadata world apiKey (s : State) :
  processing_alerts (events (processWithVision extractMetadata world apiKey s))
  = map (fun p => (File.name (snd p), errorText (outcome world apiKey p)))
        (failedItems world apiKey (images s)).
Proof.
  rewrite processWithVision_run. cbn [events].
  unfold processing_alerts at 1. cbn [collect].
  rewrite collect_app, collect_flat_map.
  fold processing_alerts. cbn [collect app]. rewrite app_nil_r.
  rewrite (flat_map_ext _ _ (processing_alerts_item extractMetadata world apiKey _)).
  unfold failedItems.
  rewrite <- (flat_map_single
                (fun p => (File.name (snd p), errorText (outcome world apiKey p)))).
  rewrite <- flat_map_when. apply flat_map_ext. intros p.
  unfold failed, errorText. now destruct (Vision.error _).
Qed.

Lemma alerts_run_length extractMetadata world apiKey (s : State) :
  List.length (alerts (events (processWithVision extractMetadata world apiKey s)))
  = (List.length (failedItems world apiKey (images s))
     + List.length (filter (unreadable world apiKey) (indexed 0 (images s))))%nat.
Proof.
  rewrite processWithVision_run. cbn [events].
  unfold alerts at 1. cbn [collect]. rewrite collect_app, collect_flat_map.
  fold alerts. cbn [collect app]. rewrite app_nil_r.
  rewrite (flat_map_ext _ _ (alerts_item extractMetadata world apiKey _)).
  unfold failedItems.
  rewrite <- (flat_map_two_lists_length
                (unreadable world apiKey)
                (fun p => failed (outcome world apiKey p))
                (fun p => ReadFailed (File.name (snd p)))
                (fun p => ProcessingFailed (File.name (snd p))
                                           (errorText (outcome world apiKey p)))).
  f_equal. apply flat_map_ext. intros p.
  unfold failed, errorText. now destruct (Vision.error _).
Qed.

(** Three images of which only the second fails, because its file cannot
    be read: two alerts are raised, the one of [imageToBase64] and the one
    of [processWithVision]. *)
Lemma processWithVision_unreadable_file_two_alerts :
  let world := Sample.world_second_unreadable in
  let r := processWithVision Sample.extractMetadata world "k" Sample.three in
  failed (outcome world "k" (0%nat, Sample.cat)) = false /\
  failed (outcome world "k" (1%nat, Sample.dog)) = true /\
  failed (outcome world "k" (2%nat, Sample.owl)) = false /\
  alerts (events r)
  = [ReadFailed "dog.jpg"; ProcessingFailed "dog.jpg" "Lectura fallida"] /\
  List.length (alerts (events r)) <> 1%nat.
Proof.
  repeat split; try reflexivity. discriminate.
Qed.

(** C1, as the code has it.  A run never aborts.  An item whose result
    carries an error pushes no record and no row, gets the status "error",
    and the loop goes on: the records pushed are those of the items without
    error, in input order, every item gets exactly one status, and
    [processWithVision] raises exactly one alert for each failed item.  The
    alerts of the whole run are these plus one alert of [imageToBase64] for
    each item whose file cannot be read.  For three images of which only
    the second fails, from an empty collection, the collection ends with
    exactly the records of images 1 and 3 in that order, with one alert of
    [processWithVision], and two alerts in all when the failure is an
    unreadable file. *)
Theorem processWithVision_skips_failed_items :
  forall (extractMetadata : File.t -> Meta.t)
         (world : nat -> File.t -> string -> Exchange)
         (apiKey : string) (s : State),
    let r := processWithVision extractMetadata world apiKey s in
    let record := recordOf extractMetadata world apiKey in
    let fails := fun p => failed (outcome world apiKey p) in
    completion r = Returns tt /\
    processedData (final r)
    = (processedData s ++ map record (completedItems world apiKey (images s)))%list /\
    rows (events r) = map record (completedItems world apiKey (images s)) /\
    statuses (events r)
    = map (fun p => (fst p, if fails p then "error" else "completed"))
          (indexed 0 (images s)) /\
    processing_alerts (events r)
    = map (fun p => (File.name (snd p), errorText (outcome world apiKey p)))
          (failedItems world apiKey (images s)) /\
    List.length (alerts (events r))
    = (List.length (failedItems world apiKey (images s))
       + List.length (filter (unreadable world apiKey) (indexed 0 (images s))))%nat /\
    (forall f1 f2 f3,
        images s = [f1; f2; f3] -> processedData s = [] ->
        fails (0%nat, f1) = false -> fails (1%nat, f2) = true ->
        fails (2%nat, f3) = false ->
        processedData (final r) = [record (0%nat, f1); record (2%nat, f3)] /\
        List.length (processing_alerts (events r)) = 1%nat /\
        List.length (alerts (events r))
        = if unreadable world apiKey (1%nat, f2) then 2%nat else 1%nat).
Proof.
  intros extractMetadata world apiKey s r record fails.
  split; [unfold r; now rewrite processWithVision_run|].
  split; [apply processedData_run|].
  split; [apply rows_run|].
  split; [apply statuses_run|].
  split; [apply processing_alerts_run|].
  split; [apply alerts_run_length|].
  intros f1 f2 f3 Himgs Hdata H1 H2 H3.
  assert (Hcompleted : completedItems world apiKey (images s)
                       = [(0%nat, f1); (2%nat, f3)]).
  { unfold completedItems. rewrite Himgs. cbn [indexed List.length seq combine filter].
    fold (fails (0%nat, f1)). fold (fails (1%nat, f2)). fold (fails (2%nat, f3)).
    now rewrite H1, H2, H3. }
  assert (Hfailed : failedItems world apiKey (images s) = [(1%nat, f2)]).
  { unfold failedItems. rewrite Himgs. cbn [indexed List.length seq combine filter].
    fold (fails (0%nat, f1)). fold (fails (1%nat, f2)). fold (fails (2%nat, f3)).
    now rewrite H1, H2, H3. }
  assert (Hu1 : unreadable world apiKey (0%nat, f1) = false).
  { destruct (unreadable world apiKey (0%nat, f1)) eqn:E; [|reflexivity].
    apply unreadable_failed in E. unfold fails in H1. congruence. }
  assert (Hu3 : unreadable world apiKey (2%nat, f3) = false).
  { destruct (unreadable world apiKey (2%nat, f3)) eqn:E; [|reflexivity].
    apply unreadable_failed in E. unfold fails in H3. congruence. }
  split; [|split].
  - unfold r. rewrite processedData_run, Hdata, Hcompleted. reflexivity.
  - unfold r. rewrite processing_alerts_run, Hfailed. reflexivity.
  - unfold r. rewrite alerts_run_length, Hfailed, Himgs.
    cbn [indexed List.length seq combine filter]. rewrite Hu1, Hu3.
    now destruct (unreadable world apiKey (1%nat, f2)).
Qed.

Lemma processWithVision_skips_failed_items_witness :
  let world := Sample.world_second_quota in
  let r := processWithVision Sample.extractMetadata world "k" Sample.three in
  processedData (final r)
  = [recordOf Sample.extractMetadata world "k" (0%nat, Sample.cat);
     recordOf Sample.extractMetadata world "k" (2%nat, Sample.owl)] /\
  List.length (processing_alerts (events r)) = 1%nat /\
  List.length (alerts (events r)) = 1%nat.
Proof.
  destruct (processWithVision_skips_failed_items
              Sample.extractMetadata Sample.world_second_quota "k" Sample.three)
    as (_ & _ & _ & _ & _ & _ & H).
  exact (H Sample.cat Sample.dog Sample.owl eq_refl eq_refl eq_refl eq_refl eq_refl).
Defined.

(** A run over one image whose result carries an error: no delay follows
    the item. *)
Lemma processWithVision_no_delay_after_failed_item :
  let r := processWithVision Sample.extractMetadata Sample.world_quota "k"
                             Sample.one in
  List.length (images Sample.one) = 1%nat /\
  events r
  = [ShowProgress;
     UpdateProgress (percentAt 1 0) "Procesando cat.jpg";
     Fetch "k" (Some "AAAA");
     Alert (ProcessingFailed "cat.jpg" "API: Quota exceeded");
     UpdateItemStatus 0 "error";
     UpdateProgress 100 "Procesamiento completado";
     ShowResults;
     HideProgressAfter 800] /\
  sleeps (events r) = [].
Proof.
  repeat split.
Qed.

(** C7, as the code has it.  The events of a run are [showProgress], one
    group of events per image in input order, and the closing events.  The
    group of an item that completed ends with its status followed by the
    200 ms delay; the group of an item whose result carries an error ends
    with its status and contains no delay.  So the delays of a run are one
    delay of 200 ms per completed item. *)
Theorem processWithVision_delay_after_completed_items :
  forall (extractMetadata : File.t -> Meta.t)
         (world : nat -> File.t -> string -> Exchange)
         (apiKey : string) (s : State),
    let r := processWithVision extractMetadata world apiKey s in
    sleeps (events r)
    = map (fun _ => 200%Z) (completedItems world apiKey (images s)) /\
    exists groups,
      events r = (ShowProgress :: List.concat groups ++ closing)%list /\
      Forall2 (iteration world apiKey) (indexed 0 (images s)) groups.
Proof.
  intros extractMetadata world apiKey s r.
  split; [apply sleeps_run|].
  exists (map (itemEvents extractMetadata world apiKey (List.length (images s)))
              (indexed 0 (images s))).
  split.
  - unfold r. rewrite processWithVision_run. cbn [events].
    now rewrite flat_map_concat_map.
  - apply Forall2_map_right. intros p. apply iteration_item.
Qed.

Lemma prepareFiles_final (files : list File.t) (s : State) :
  final (prepareFiles files s)
  = {| images := filter (fun f => leQ (sizeMB f) (MAX_FILE_SIZE_MB s)) files;
       processedData := [];
       MAX_FILE_SIZE_MB := MAX_FILE_SIZE_MB s |}.
Proof.
  unfold prepareFiles, StM.bind, StM.gets, StM.modify, StM.emit, StM.ret.
  simpl. now destruct (negb _).
Qed.

(** Two runs in a row over one image: the collection holds one record
    after the first run and two after the second. *)
Lemma processWithVision_second_run_duplicates :
  let run := processWithVision Sample.extractMetadata Sample.world_ok "k" in
  let r1 := run Sample.one in
  let r2 := run (final r1) in
  images (final r1) = images Sample.one /\
  List.length (processedData (final r1)) = 1%nat /\
  List.length (processedData (final r2)) = 2%nat /\
  processedData (final r1) <> processedData (final r2).
Proof.
  repeat split. discriminate.
Qed.

(** C6, as the code has it.  [processWithVision] does not clear
    [processedData]: a run appends the records of its completed items to
    what the collection holds.  Two runs in a row over the same images, key
    and deterministic client append the same ordered records twice, and
    show the same rows.  When each run follows [prepareFiles] on the same
    files (which clears the collection), the collection and the events after
    the two runs are identical. *)
Theorem processWithVision_repeated_runs :
  forall (extractMetadata : File.t -> Meta.t)
         (world : nat -> File.t -> string -> Exchange)
         (apiKey : string),
    let run := processWithVision extractMetadata world apiKey in
    (forall s,
        let appended := map (recordOf extractMetadata world apiKey)
                            (completedItems world apiKey (images s)) in
        processedData (final (run s)) = (processedData s ++ appended)%list /\
        processedData (final (run (final (run s))))
        = (processedData s ++ appended ++ appended)%list /\
        rows (events (run s)) = appended /\
        rows (events (run (final (run s)))) = appended) /\
    (forall files s,
        let r1 := run (final (prepareFiles files s)) in
        let r2 := run (final (prepareFiles files (final r1))) in
        processedData (final r1) = processedData (final r2) /\
        events r1 = events r2).
Proof.
  intros extractMetadata world apiKey run. split.
  - intros s appended.
    assert (Himgs : images (final (run s)) = images s)
      by (unfold run; now rewrite processWithVision_run).
    unfold run. rewrite !processedData_run, !rows_run.
    fold run. rewrite Himgs. fold appended.
    rewrite <- app_assoc. repeat split; reflexivity.
  - intros files s r1 r2.
    assert (Hsame : final (prepareFiles files (final r1))
                    = final (prepareFiles files s)).
    { rewrite (prepareFiles_final files (final r1)), (prepareFiles_final files s).
      unfold r1, run. rewrite processWithVision_run.
      cbn [final pushed MAX_FILE_SIZE_MB]. rewrite prepareFiles_final.
      reflexivity. }
    unfold r2. rewrite Hsame. fold r1. split; reflexivity.
Qed.

(** ** The category of a path, continued *)

Lemma lower_char_not_upper (c : ascii) : is_upper (lower_char c) = false.
Proof.
  destruct c as [b0 b1 b2 b3 b4 b5 b6 b7].
  destruct b0, b1, b2, b3, b4, b5, b6, b7; reflexivity.
Qed.

Lemma lower_char_word_hyphen (c : ascii) :
  is_word c || Ascii.eqb c hyphen = true ->
  is_word (lower_char c) || Ascii.eqb (lower_char c) hyphen = true.
Proof.
  destruct c as [b0 b1 b2 b3 b4 b5 b6 b7].
  destruct b0, b1, b2, b3, b4, b5, b6, b7; intros H; try reflexivity;
    vm_compute in H; discriminate H.
Qed.

Lemma lower_char_fixed (c : ascii) :
  is_upper c = false -> lower_char c = c.
Proof. unfold lower_char. now intros ->. Qed.

Lemma word_hyphen_not_separator (c : ascii) :
  is_word c || Ascii.eqb c hyphen = true -> is_separator c = false.
Proof.
  destruct c as [b0 b1 b2 b3 b4 b5 b6 b7].
  destruct b0, b1, b2, b3, b4, b5, b6, b7; intros H; try reflexivity;
    vm_compute in H; discriminate H.
Qed.

Lemma all_chars_map (p q : ascii -> bool) (f : ascii -> ascii) (s : string) :
  (forall c, p c = true -> q (f c) = true) ->
  all_chars p s = true -> all_chars q (map_chars f s) = true.
Proof.
  intros H. induction s as [|c r IH]; simpl; [reflexivity|].
  intros Hs. apply andb_true_iff in Hs as [Hc Hr].
  now rewrite (H c Hc), (IH Hr).
Qed.

Lemma all_chars_impl (p q : ascii -> bool) (s : string) :
  (forall c, p c = true -> q c = true) ->
  all_chars p s = true -> all_chars q s = true.
Proof.
  intros H. induction s as [|c r IH]; simpl; [reflexivity|].
  intros Hs. apply andb_true_iff in Hs as [Hc Hr].
  now rewrite (H c Hc), (IH Hr).
Qed.

Lemma map_chars_fixed (f : ascii -> ascii) (p : ascii -> bool) (s : string) :
  (forall c, p c = true -> f c = c) ->
  all_chars p s = true -> map_chars f s = s.
Proof.
  intros H. induction s as [|c r IH]; simpl; [reflexivity|].
  intros Hs. apply andb_true_iff in Hs as [Hc Hr].
  now rewrite (H c Hc), (IH Hr).
Qed.

Lemma truthy_map_chars (f : ascii -> ascii) (s : string) :
  truthy (map_chars f s) = truthy s.
Proof. now destruct s. Qed.

Lemma map_chars_map_chars (f g : ascii -> ascii) (s : string) :
  map_chars f (map_chars g s) = map_chars (fun c => f (g c)) s.
Proof. induction s as [|c r IH]; simpl; [reflexivity | now rewrite IH]. Qed.

Lemma map_chars_ext (f g : ascii -> ascii) (s : string) :
  (forall c, f c = g c) -> map_chars f s = map_chars g s.
Proof.
  intros H. induction s as [|c r IH]; simpl; [reflexivity | now rewrite H, IH].
Qed.

(** X1. The category of any path is empty, or a non-empty string of
    lower-case letters, digits, underscores and hyphens: it matches the
    pattern of line 115 itself, has no upper-case letter (lower-casing it
    again changes nothing) and contains no path separator. *)
Theorem getCategoryFromPath_is_lowercase_slug :
  forall path : string,
    let slug := getCategoryFromPath path in
    slug = "" \/
    (test_word_hyphen slug = true /\
     all_chars (fun c => negb (is_upper c)) slug = true /\
     toLowerCase slug = slug /\
     segment slug).
Proof.
  intros path slug. unfold slug, getCategoryFromPath.
  destruct (negb (truthy path)); [now left|].
  destruct (2 <=? _)%nat; [|now left].
  set (s := nth _ _ _).
  destruct (test_word_hyphen s) eqn:Hs; [|now left].
  right. unfold test_word_hyphen in Hs. apply andb_true_iff in Hs as [Hne Hall].
  assert (Hlow : all_chars (fun c => negb (is_upper c)) (toLowerCase s) = true).
  { unfold toLowerCase.
    apply (all_chars_map (fun _ => true) _ lower_char s).
    - intros c _. now rewrite lower_char_not_upper.
    - clear. induction s as [|c r IH]; simpl; [reflexivity | exact IH]. }
  assert (Hword : all_chars (fun c => is_word c || Ascii.eqb c hyphen)
                            (toLowerCase s) = true).
  { unfold toLowerCase.
    apply (all_chars_map _ _ lower_char s lower_char_word_hyphen Hall). }
  split; [|split; [exact Hlow|split]].
  - unfold test_word_hyphen. rewrite Hword, andb_true_r.
    unfold toLowerCase. now rewrite truthy_map_chars.
  - unfold toLowerCase at 1.
    apply (map_chars_fixed lower_char (fun c => negb (is_upper c))); [|exact Hlow].
    intros c Hc. apply lower_char_fixed. now apply negb_true_iff in Hc.
  - unfold segment. revert Hword. apply all_chars_impl.
    intros c H. now rewrite (word_hyphen_not_separator c H).
Qed.

Lemma normalize_after_swap (path : string) :
  replaceAll backslash slash (replaceAll slash backslash path)
  = replaceAll backslash slash path.
Proof.
  unfold replaceAll. rewrite map_chars_map_chars. apply map_chars_ext.
  intros c. destruct (Ascii.eqb c slash) eqn:Hs.
  - apply Ascii.eqb_eq in Hs. subst c. reflexivity.
  - reflexivity.
Qed.

Lemma normalize_twice (path : string) :
  replaceAll backslash slash (replaceAll backslash slash path)
  = replaceAll backslash slash path.
Proof.
  unfold replaceAll. rewrite map_chars_map_chars. apply map_chars_ext.
  intros c. destruct (Ascii.eqb c backslash) eqn:Hb; [reflexivity|].
  now rewrite Hb.
Qed.

(** X2. The category does not depend on the separator style: writing a
    path with back-slashes only, or with slashes only, gives the category of
    the path as written. *)
Theorem getCategoryFromPath_any_separator :
  forall path : string,
    getCategoryFromPath (replaceAll slash backslash path)
    = getCategoryFromPath path /\
    getCategoryFromPath (replaceAll backslash slash path)
    = getCategoryFromPath path.
Proof.
  intros path. unfold getCategoryFromPath. split.
  - rewrite normalize_after_swap. unfold replaceAll at 1.
    now rewrite truthy_map_chars.
  - rewrite normalize_twice. unfold replaceAll at 1.
    now rewrite truthy_map_chars.
Qed.


(** ** The file gate, continued *)

Lemma filter_twice {A : Type} (p : A -> bool) (l : list A) :
  filter p (filter p l) = filter p l.
Proof.
  induction l as [|a l IH]; simpl; [reflexivity|].
  destruct (p a) eqn:Hp; simpl; [now rewrite Hp, IH | exact IH].
Qed.

Lemma filter_then_complement {A : Type} (p : A -> bool) (l : list A) :
  filter (fun a => negb (p a)) (filter p l) = [].
Proof.
  induction l as [|a l IH]; simpl; [reflexivity|].
  destruct (p a) eqn:Hp; simpl; [now rewrite Hp | exact IH].
Qed.

Lemma prepareFiles_events (files : list File.t) (s : State) :
  events (prepareFiles files s)
  = ((if negb (List.length
                 (filter (fun f => gtQ (sizeMB f) (MAX_FILE_SIZE_MB s)) files)
               =? 0)%nat
      then [Alert (OversizedFiles (MAX_FILE_SIZE_MB s))] else [])
     ++ [ClearResultsTable; ShowPreview])%list.
Proof.
  unfold prepareFiles, StM.bind, StM.gets, StM.modify, StM.emit, StM.ret.
  simpl. now destruct (negb _).
Qed.

(** X3. Gating is idempotent: the files [prepareFiles] has kept all pass
    it again, unchanged and in the same order, this time without the
    size warning; and every kept file is within the limit. *)
Theorem prepareFiles_idempotent :
  forall (files : list File.t) (s : State),
    let r1 := prepareFiles files s in
    let r2 := prepareFiles (images (final r1)) (final r1) in
    final r2 = final r1 /\
    events r2 = [ClearResultsTable; ShowPreview] /\
    Forall (fun f => inject_Z (File.size f)
                     <= byteLimit (MAX_FILE_SIZE_MB s))
           (images (final r1)).
Proof.
  intros files s r1 r2. unfold r2, r1.
  rewrite prepareFiles_events. rewrite !prepareFiles_final.
  cbn [images MAX_FILE_SIZE_MB processedData].
  split; [|split].
  - now rewrite filter_twice.
  - rewrite (filter_ext (fun f => gtQ (sizeMB f) (MAX_FILE_SIZE_MB s))
                        (fun f => negb (leQ (sizeMB f) (MAX_FILE_SIZE_MB s))))
      by (intros f; apply gtQ_negb_leQ).
    now rewrite (filter_then_complement
                   (fun f => leQ (sizeMB f) (MAX_FILE_SIZE_MB s))).
  - apply Forall_forall. intros f Hin. apply filter_In in Hin as [_ Hle].
    apply leQ_le in Hle. now apply sizeMB_le.
Qed.

(** ** The listeners *)

Lemma takeFiles_none (offered : list Offered.t) (s : State) :
  filter (fun f => startsWith "image" (Offered.type f)) offered = [] ->
  takeFiles offered s = mkRun [] (Returns tt) s.
Proof. unfold takeFiles. now intros ->. Qed.

Lemma takeFiles_some (offered : list Offered.t) (s : State) :
  filter (fun f => startsWith "image" (Offered.type f)) offered <> [] ->
  takeFiles offered s
  = prepareFiles
      (map Offered.file
           (filter (fun f => startsWith "image" (Offered.type f)) offered)) s.
Proof.
  unfold takeFiles. intros H.
  destruct (filter _ offered); [now contradiction H | reflexivity].
Qed.

(** X4. Files handed over by a drop or by the file input.  When none of
    them has a type starting with "image", nothing changes: the images and
    the results of the previous batch stay, and nothing is shown.  When one
    has, the images become the image-typed files within the size limit, in
    the order offered, and the previous results are cleared, even if every
    such file is over the limit.  A drop does the same after its three calls
    on the event and the drop zone. *)
Theorem listeners_take_image_files :
  forall (offered : list Offered.t) (s : State),
    let pictures :=
      filter (fun f => startsWith "image" (Offered.type f)) offered in
    (pictures = [] ->
     onChange offered s = ([], s) /\
     onDrop offered s = ([PreventDefault; StopPropagation; RemoveDragover], s)) /\
    (pictures <> [] ->
     images (snd (onChange offered s))
     = filter (within_limit (byteLimit (MAX_FILE_SIZE_MB s)))
              (map Offered.file pictures) /\
     processedData (snd (onChange offered s)) = [] /\
     MAX_FILE_SIZE_MB (snd (onChange offered s)) = MAX_FILE_SIZE_MB s) /\
    onDrop offered s
    = ((PreventDefault :: StopPropagation :: RemoveDragover
        :: fst (onChange offered s))%list,
       snd (onChange offered s)).
Proof.
  intros offered s pictures. split; [|split].
  - intros Hnone. unfold onChange, onDrop.
    rewrite (takeFiles_none offered s Hnone). split; reflexivity.
  - intros Hsome. unfold onChange. cbn [snd].
    rewrite (takeFiles_some offered s Hsome), prepareFiles_final.
    cbn [images processedData MAX_FILE_SIZE_MB]. fold pictures.
    split; [|split; reflexivity].
    apply filter_ext. intros f. apply leQ_sizeMB.
  - reflexivity.
Qed.

Lemma listeners_take_image_files_witness :
  filter (fun f => startsWith "image" (Offered.type f)) [SampleUi.notes] = [] /\
  filter (fun f => startsWith "image" (Offered.type f))
         [SampleUi.notes; SampleUi.huge_photo] <> [] /\
  onChange [SampleUi.notes] SampleUi.busy = ([], SampleUi.busy) /\
  images (snd (onChange [SampleUi.notes; SampleUi.huge_photo] SampleUi.busy)) = [] /\
  processedData (snd (onChange [SampleUi.notes; SampleUi.huge_photo] SampleUi.busy))
  = [].
Proof.
  assert (Hnone : filter (fun f => startsWith "image" (Offered.type f))
                         [SampleUi.notes] = []) by reflexivity.
  assert (Hsome : filter (fun f => startsWith "image" (Offered.type f))
                         [SampleUi.notes; SampleUi.huge_photo] <> [])
    by discriminate.
  split; [exact Hnone|]. split; [exact Hsome|].
  destruct (listeners_take_image_files [SampleUi.notes] SampleUi.busy)
    as (H1 & _ & _).
  destruct (listeners_take_image_files [SampleUi.notes; SampleUi.huge_photo]
                                       SampleUi.busy)
    as (_ & H2 & _).
  split; [exact (proj1 (H1 Hnone))|].
  destruct (H2 Hsome) as (Himgs & Hdata & _).
  split; [exact Himgs | exact Hdata].
Defined.

(** ** The vision client, continued *)

(** X5. The encoded image is what stands between the first and the
    second comma of the data URL: for a URL made of a header without comma,
    a comma and a payload without comma, [imageToBase64] resolves with the
    payload; anything after a further comma is dropped; and a result
    without any comma resolves with [undefined]. *)
Theorem imageToBase64_payload :
  forall (file : File.t),
    (forall header payload,
        comma_free header -> comma_free payload ->
        imageToBase64 file (Loaded (header ++ String comma payload))
        = IoM.ret (Some payload)) /\
    (forall header payload rest,
        comma_free header -> comma_free payload ->
        imageToBase64 file
          (Loaded (header ++ String comma (payload ++ String comma rest)))
        = IoM.ret (Some payload)) /\
    (forall result,
        comma_free result ->
        imageToBase64 file (Loaded result) = IoM.ret None).
Proof.
  intros file. split; [|split].
  - intros header payload Hh Hp. unfold imageToBase64.
    rewrite split_append, (split_without_separator comma header Hh),
      (split_without_separator comma payload Hp).
    reflexivity.
  - intros header payload rest Hh Hp. unfold imageToBase64.
    rewrite !split_append, (split_without_separator comma header Hh),
      (split_without_separator comma payload Hp).
    reflexivity.
  - intros result Hr. unfold imageToBase64.
    now rewrite (split_without_separator comma result Hr).
Qed.

Lemma imageToBase64_payload_witness :
  comma_free "data:image/jpeg;base64" /\ comma_free "AAAA" /\
  imageToBase64 Sample.cat (Loaded "data:image/jpeg;base64,AAAA")
  = IoM.ret (Some "AAAA").
Proof.
  split; [reflexivity|]. split; [reflexivity|].
  exact (proj1 (imageToBase64_payload Sample.cat)
               "data:image/jpeg;base64" "AAAA" eq_refl eq_refl).
Defined.

Lemma fetches_of_client (file : File.t) (apiKey : string) (x : Exchange) :
  fetches (io_events (analyzeVision file apiKey x))
  = match read x with
    | Loaded _ => [(apiKey, payloadOf x)]
    | ReadError => []
    end.
Proof.
  unfold payloadOf.
  destruct (analyzeVision_cases file apiKey x)
    as [[Hr E]|[(?&?&Hr&_&E)|[(?&?&?&Hr&_&_&_&E)|(?&?&?&Hr&_&_&_&_&E)]]];
    rewrite E, Hr; reflexivity.
Qed.

(** X6. One call of [analyzeVision] sends exactly one request, with the
    given key and the encoded image, when the file can be read, whatever
    the answer is or however the call fails afterwards, and raises no
    alert; when the file cannot be read it sends no request at all and
    raises the one alert of [imageToBase64]. *)
Theorem analyzeVision_one_request :
  forall (file : File.t) (apiKey : string) (x : Exchange),
    (forall result,
        read x = Loaded result ->
        fetches (io_events (analyzeVision file apiKey x))
        = [(apiKey, nth_error (split comma result) 1)] /\
        alerts (io_events (analyzeVision file apiKey x)) = []) /\
    (read x = ReadError ->
     fetches (io_events (analyzeVision file apiKey x)) = [] /\
     alerts (io_events (analyzeVision file apiKey x))
     = [ReadFailed (File.name file)]).
Proof.
  intros file apiKey x.
  pose proof (fetches_of_client file apiKey x) as Hf.
  pose proof (alerts_of_client (fun _ _ _ => x) apiKey (0%nat, file)) as Ha.
  unfold exchangeOf, unreadable, exchangeOf in Ha. cbn [fst snd] in Ha.
  unfold payloadOf in Hf.
  split.
  - intros result Hr. rewrite Hr in Hf, Ha. now split.
  - intros Hr. rewrite Hr in Hf, Ha. now split.
Qed.

Lemma analyzeVision_one_request_witness :
  read Sample.answer_offline = Loaded "data:image/jpeg;base64,AAAA" /\
  fetches (io_events (analyzeVision Sample.cat "k" Sample.answer_offline))
  = [("k", Some "AAAA")] /\
  read Sample.answer_unreadable = ReadError /\
  fetches (io_events (analyzeVision Sample.cat "k" Sample.answer_unreadable)) = [].
Proof.
  destruct (analyzeVision_one_request Sample.cat "k" Sample.answer_offline)
    as (Hread & _).
  destruct (analyzeVision_one_request Sample.cat "k" Sample.answer_unreadable)
    as (_ & Hfail).
  split; [reflexivity|]. split; [exact (proj1 (Hread _ eq_refl))|].
  split; [reflexivity | exact (proj1 (Hfail eq_refl))].
Defined.

(** X7. Only the first element of [responses] is read, and an accepted
    answer without any is a success with nothing in it: two accepted
    answers whose bodies start with the same response give the same result,
    and an accepted answer whose body has no [responses], or an empty list,
    gives a result with no label, an empty description and no error. *)
Theorem analyzeVision_reads_first_response :
  forall (file : File.t) (apiKey : string),
    (forall x r j x' r' j' a rest rest',
        accepted x r j -> accepted x' r' j' ->
        Body.responses j = Some (a :: rest) ->
        Body.responses j' = Some (a :: rest') ->
        io_result (analyzeVision file apiKey x)
        = io_result (analyzeVision file apiKey x')) /\
    (forall x r j,
        accepted x r j ->
        Body.responses j = None \/ Body.responses j = Some [] ->
        io_result (analyzeVision file apiKey x)
        = Returns {| Vision.labels := []; Vision.description := "";
                     Vision.error := None |}).
Proof.
  intros file apiKey. split.
  - intros x r j x' r' j' a rest rest' Hx Hx' Hj Hj'.
    rewrite (analyzeVision_accepted file apiKey x r j Hx).
    rewrite (analyzeVision_accepted file apiKey x' r' j' Hx').
    unfold response_labels, response_description, label_annotations,
      best_guess_label, first_response.
    now rewrite Hj, Hj'.
  - intros x r j Hx Hj.
    rewrite (analyzeVision_accepted file apiKey x r j Hx).
    unfold response_labels, response_description, label_annotations,
      best_guess_label, first_response.
    now destruct Hj as [-> | ->].
Qed.

Lemma analyzeVision_reads_first_response_witness :
  let empty := {| Body.error := None; Body.responses := Some [] |} in
  let r := {| Response.ok := true; Response.statusText := "OK";
              Response.json := Returns empty |} in
  let x := {| read := Loaded "data:image/jpeg;base64,AAAA";
              fetched := Returns r |} in
  accepted x r empty /\
  io_result (analyzeVision Sample.cat "k" x)
  = Returns {| Vision.labels := []; Vision.description := "";
               Vision.error := None |}.
Proof.
  intros empty r x.
  assert (Hacc : accepted x r empty).
  { split; [eexists; reflexivity|]. repeat split. }
  split; [exact Hacc|].
  exact (proj2 (analyzeVision_reads_first_response Sample.cat "k")
               x r empty Hacc (or_intror eq_refl)).
Defined.

(** ** The batch loop, continued *)

Lemma indexed_In (files : list File.t) :
  forall (start i : nat) (f : File.t),
    In (i, f) (indexed start files) ->
    (start <= i)%nat /\ nth_error files (i - start) = Some f.
Proof.
  induction files as [|g rest IH]; intros start i f Hin; [contradiction|].
  rewrite indexed_cons in Hin. destruct Hin as [Heq | Hin].
  - injection Heq as <- <-. rewrite Nat.sub_diag. now split.
  - apply IH in Hin as [Hle Hnth]. split; [lia|].
    replace (i - start)%nat with (S (i - S start)) by lia. exact Hnth.
Qed.

Lemma indexed_size (start : nat) (files : list File.t) :
  List.length (indexed start files) = List.length files.
Proof.
  revert start. induction files as [|f rest IH]; intros start; [reflexivity|].
  rewrite indexed_cons. simpl. now rewrite IH.
Qed.

Lemma fetches_item extractMetadata world apiKey (n : nat) (p : nat * File.t) :
  fetches (itemEvents extractMetadata world apiKey n p)
  = if unreadable world apiKey p then []
    else [(apiKey, payloadOf (exchangeOf world apiKey p))].
Proof.
  unfold itemEvents. unfold fetches at 1. cbn [collect]. rewrite collect_app.
  fold fetches. rewrite fetches_of_client. unfold unreadable.
  destruct (read _); destruct (Vision.error _); reflexivity.
Qed.

Lemma fetches_run extractMetadata world apiKey (s : State) :
  fetches (events (processWithVision extractMetadata world apiKey s))
  = map (fun p => (apiKey, payloadOf (exchangeOf world apiKey p)))
        (filter (fun p => negb (unreadable world apiKey p))
                (indexed 0 (images s))).
Proof.
  rewrite processWithVision_run. cbn [events].
  unfold fetches at 1. cbn [collect]. rewrite collect_app, collect_flat_map.
  fold fetches. cbn [collect app]. rewrite app_nil_r.
  rewrite (flat_map_ext _ _ (fetches_item extractMetadata world apiKey _)).
  apply (flat_map_unless (unreadable world apiKey)).
Qed.

(** X8. A run sends one request for each image whose file can be read, in
    input order, every one with the key given to the run, and none for an
    unreadable file: never more requests than images, and never a second
    request for an image, whatever the answers are. *)
Theorem processWithVision_requests :
  forall (extractMetadata : File.t -> Meta.t)
         (world : nat -> File.t -> string -> Exchange)
         (apiKey : string) (s : State),
    let r := processWithVision extractMetadata world apiKey s in
    fetches (events r)
    = map (fun p => (apiKey, payloadOf (exchangeOf world apiKey p)))
          (filter (fun p => negb (unreadable world apiKey p))
                  (indexed 0 (images s))) /\
    (List.length (fetches (events r)) <= List.length (images s))%nat /\
    (forall key content, In (key, content) (fetches (events r)) -> key = apiKey).
Proof.
  intros extractMetadata world apiKey s r. unfold r.
  rewrite fetches_run. split; [reflexivity|]. split.
  - rewrite length_map, <- (indexed_size 0 (images s)). apply filter_length_le.
  - intros key content Hin. apply in_map_iff in Hin as (p & Heq & _).
    now injection Heq as <- _.
Qed.

Lemma processWithVision_requests_witness :
  In ("k", Some "AAAA")
     (fetches (events (processWithVision Sample.extractMetadata
                                         Sample.world_second_unreadable "k"
                                         Sample.three))) /\
  fetches (events (processWithVision Sample.extractMetadata
                                     Sample.world_second_unreadable "k"
                                     Sample.three))
  = [("k", Some "AAAA"); ("k", Some "AAAA")].
Proof.
  destruct (processWithVision_requests Sample.extractMetadata
              Sample.world_second_unreadable "k" Sample.three) as (H & _ & _).
  split; [now left | exact H].
Defined.


(** X10. [processWithVision] has no guard of its own for an empty batch:
    on an instance without images it shows the progress bar, reports 100 %,
    shows the results and schedules the hiding of the bar, sends no request
    and leaves the fields as they are. *)
Theorem processWithVision_without_images :
  forall (extractMetadata : File.t -> Meta.t)
         (world : nat -> File.t -> string -> Exchange)
         (apiKey : string) (s : State),
    images s = [] ->
    processWithVision extractMetadata world apiKey s
    = mkRun (ShowProgress :: closing) (Returns tt) s.
Proof.
  intros extractMetadata world apiKey s Hnone.
  rewrite processWithVision_run, Hnone. cbn [indexed List.length seq combine flat_map].
  now rewrite pushed_nil.
Qed.

Lemma processWithVision_without_images_witness :
  images constructed = [] /\
  processWithVision Sample.extractMetadata Sample.world_ok "k" constructed
  = mkRun (ShowProgress :: closing) (Returns tt) constructed.
Proof.
  split; [reflexivity|].
  exact (processWithVision_without_images
           Sample.extractMetadata Sample.world_ok "k" constructed eq_refl).
Defined.




(** X12. Every record a run pushes belongs to one image of the batch: it
    keeps the name, path, size, width and height that [extractMetadata]
    gave for that image, its category is the category of that path, and its
    description has at most 100 characters. *)
Theorem processWithVision_record_fields :
  forall (extractMetadata : File.t -> Meta.t)
         (world : nat -> File.t -> string -> Exchange)
         (apiKey : string) (s : State) (m : Meta.t),
    In m (rows (events (processWithVision extractMetadata world apiKey s))) ->
    exists i file,
      nth_error (images s) i = Some file /\
      Meta.name m = Meta.name (extractMetadata file) /\
      Meta.path m = Meta.path (extractMetadata file) /\
      Meta.size m = Meta.size (extractMetadata file) /\
      Meta.width m = Meta.width (extractMetadata file) /\
      Meta.height m = Meta.height (extractMetadata file) /\
      Meta.category_slug m = getCategoryFromPath (Meta.path (extractMetadata file)) /\
      (String.length (Meta.description m) <= 100)%nat.
Proof.
  intros extractMetadata world apiKey s m Hin.
  rewrite rows_run in Hin. apply in_map_iff in Hin as ([i file] & <- & Hp).
  unfold completedItems in Hp. apply filter_In in Hp as [Hp _].
  apply indexed_In in Hp as [_ Hnth]. rewrite Nat.sub_0_r in Hnth.
  exists i, file. split; [exact Hnth|].
  unfold recordOf. cbn [snd].
  repeat (split; [reflexivity|]).
  rewrite description_of_record, substring0_length. apply Nat.le_min_l.
Qed.

Lemma processWithVision_record_fields_witness :
  exists i file,
    nth_error (images Sample.three) i = Some file /\
    Meta.name (recordOf Sample.extractMetadata Sample.world_ok "k"
                        (0%nat, Sample.cat))
    = Meta.name (Sample.extractMetadata file).
Proof.
  destruct (processWithVision_record_fields
              Sample.extractMetadata Sample.world_ok "k" Sample.three
              (recordOf Sample.extractMetadata Sample.world_ok "k"
                        (0%nat, Sample.cat)))
    as (i & file & Hnth & Hname & _).
  - left. reflexivity.
  - exists i, file. now split.
Defined.

(** X13. After [prepareFiles] and a run, the collection holds the records
    of this batch only, whatever it held before, and it is exactly the list
    of the rows shown in the table during the run, in the same order. *)
Theorem batch_results_match_table :
  forall (extractMetadata : File.t -> Meta.t)
         (world : nat -> File.t -> string -> Exchange)
         (apiKey : string) (files : list File.t) (s : State),
    let r := processWithVision extractMetadata world apiKey
                               (final (prepareFiles files s)) in
    processedData (final r) = rows (events r) /\
    (List.length (processedData (final r)) <= List.length files)%nat.
Proof.
  intros extractMetadata world apiKey files s r. unfold r.
  rewrite processedData_run, rows_run, prepareFiles_final.
  cbn [processedData images app]. split; [reflexivity|].
  rewrite length_map. unfold completedItems.
  eapply Nat.le_trans; [apply filter_length_le|].
  rewrite indexed_size. apply filter_length_le.
Qed.




(** ** The process button *)

Lemma trimEnd_empty_iff (s : string) : trimEnd s = "" <-> blank s.
Proof.
  unfold blank. induction s as [|c r IH]; simpl; [now split|].
  destruct (trimEnd r) as [|x y] eqn:E.
  - destruct (is_space c); simpl.
    + split; [intros _; now apply IH | reflexivity].
    + split; discriminate.
  - split; [discriminate|]. intros H. apply andb_true_iff in H as [_ H].
    apply IH in H. discriminate H.
Qed.

Lemma blank_trimStart (s : string) : blank (trimStart s) <-> blank s.
Proof.
  unfold blank. induction s as [|c r IH]; simpl; [now split|].
  destruct (is_space c) eqn:Hc; simpl; [exact IH|].
  rewrite Hc. now split.
Qed.

Lemma trim_empty_iff (s : string) : trim s = "" <-> blank s.
Proof. unfold trim. now rewrite trimEnd_empty_iff, blank_trimStart. Qed.

Lemma trimStart_split (s : string) :
  exists l, blank l /\ s = l ++ trimStart s.
Proof.
  unfold blank. induction s as [|c r IH]; simpl; [now exists ""|].
  destruct (is_space c) eqn:Hc.
  - destruct IH as (l & Hl & Hr). exists (String c l). simpl.
    rewrite Hc, Hl. split; [reflexivity | now rewrite <- Hr].
  - now exists "".
Qed.

Lemma trimEnd_split (s : string) :
  exists r, blank r /\ s = trimEnd s ++ r.
Proof.
  unfold blank. induction s as [|c t IH]; simpl; [now exists ""|].
  destruct IH as (r & Hr & Ht).
  destruct (trimEnd t) as [|x y] eqn:E.
  - simpl in Ht. subst t. destruct (is_space c) eqn:Hc.
    + exists (String c r). simpl. now rewrite Hc, Hr.
    + exists r. now split.
  - exists r. split; [exact Hr|]. simpl in *. now rewrite <- Ht.
Qed.

Lemma trimStart_head (s : string) (c : ascii) (r : string) :
  trimStart s = String c r -> is_space c = false.
Proof.
  induction s as [|d t IH]; simpl; [discriminate|].
  destruct (is_space d) eqn:Hd; [exact IH|].
  intros H. now injection H as <- _.
Qed.

Lemma trimEnd_head (s : string) (c : ascii) (r : string) :
  trimEnd s = String c r -> exists t, s = String c t.
Proof.
  destruct s as [|d t]; simpl; [discriminate|].
  destruct (trimEnd t); [destruct (is_space d); [discriminate|]|];
    intros H; injection H as <- _; now exists t.
Qed.

Lemma trimEnd_last (s a : string) (d : ascii) :
  trimEnd s = a ++ String d "" -> is_space d = false.
Proof.
  revert a. induction s as [|c t IH]; intros a; simpl.
  - destruct a; discriminate.
  - destruct (trimEnd t) as [|x y] eqn:E.
    + destruct (is_space c) eqn:Hc; [destruct a; discriminate|].
      destruct a as [|a0 a']; simpl; intros H.
      * now injection H as <-.
      * injection H as _ H. destruct a'; discriminate.
    + destruct a as [|a0 a']; simpl; intros H.
      * injection H as _ H. discriminate.
      * injection H as _ H. now apply (IH a').
Qed.

Lemma pageEvents_Page (evs : list Event) : pageEvents (map Page evs) = evs.
Proof. induction evs as [|ev evs IH]; simpl; [reflexivity | now rewrite IH]. Qed.

(** X15. A click on the process button starts a run only when there is
    an image and the key field holds more than white space.  Without
    images it raises the one alert asking for images, whatever the key;
    with images and a blank key it raises the one alert asking for the key.
    In both cases the fields are left as they are and no request is sent.
    Otherwise the run is made with the key stripped of the white space
    around it: that key neither begins nor ends with white space, and it
    is the key of every request of the run. *)
Theorem onProcessClick_guards :
  forall (extractMetadata : File.t -> Meta.t)
         (world : nat -> File.t -> string -> Exchange)
         (value : string) (s : State),
    let out := onProcessClick extractMetadata world value s in
    let key := trim value in
    (images s = [] -> out = ([AlertNoImages], s)) /\
    (images s <> [] -> blank value -> out = ([AlertNoKey], s)) /\
    (images s = [] \/ blank value ->
     snd out = s /\ fetches (pageEvents (fst out)) = []) /\
    (images s <> [] -> ~ blank value ->
     out = (map Page (events (processWithVision extractMetadata world key s)),
            final (processWithVision extractMetadata world key s)) /\
     (exists l r, blank l /\ blank r /\ value = l ++ key ++ r) /\
     (exists c rest, key = String c rest /\ is_space c = false) /\
     (forall a d, key = a ++ String d "" -> is_space d = false) /\
     (forall k content,
         In (k, content) (fetches (pageEvents (fst out))) -> k = key)).
Proof.
  intros extractMetadata world value s out key.
  assert (Hnone : images s = [] -> out = ([AlertNoImages], s)).
  { intros H. unfold out, onProcessClick. now rewrite H. }
  assert (Hblank : images s <> [] -> blank value -> out = ([AlertNoKey], s)).
  { intros Hi Hb. unfold out, onProcessClick.
    destruct (images s); [now contradiction Hi|]. cbn [List.length Nat.eqb].
    apply trim_empty_iff in Hb. now rewrite Hb. }
  split; [exact Hnone|]. split; [exact Hblank|]. split.
  - intros [Hi | Hb].
    + rewrite (Hnone Hi). now split.
    + destruct (images s) eqn:E.
      * rewrite (Hnone eq_refl). now split.
      * rewrite Hblank; [now split | discriminate | exact Hb].
  - intros Hi Hb.
    assert (Hkey : key <> "").
    { intros H. apply Hb. now apply trim_empty_iff. }
    assert (Hout : out
                   = (map Page (events (processWithVision extractMetadata world key s)),
                      final (processWithVision extractMetadata world key s))).
    { unfold out, onProcessClick.
      destruct (images s); [now contradiction Hi|]. cbn [List.length Nat.eqb].
      fold key. destruct key; [now contradiction Hkey | reflexivity]. }
    split; [exact Hout|]. split; [|split; [|split]].
    + destruct (trimStart_split value) as (l & Hl & Hv).
      destruct (trimEnd_split (trimStart value)) as (r & Hr & Ht).
      exists l, r. split; [exact Hl|]. split; [exact Hr|].
      unfold key, trim. now rewrite <- Ht.
    + destruct key as [|c rest] eqn:E; [now contradiction Hkey|].
      exists c, rest. split; [reflexivity|].
      unfold key, trim in E. destruct (trimEnd_head _ _ _ E) as (t & Ht).
      now apply trimStart_head in Ht.
    + intros a d Ha. unfold key, trim in Ha. now apply trimEnd_last in Ha.
    + intros k content Hin. rewrite Hout in Hin. cbn [fst] in Hin.
      rewrite pageEvents_Page, fetches_run in Hin.
      apply in_map_iff in Hin as (p & Heq & _). now injection Heq as <- _.
Qed.

Lemma onProcessClick_guards_witness :
  images Sample.one <> [] /\ blank "   " /\ ~ blank "  k " /\
  onProcessClick Sample.extractMetadata Sample.world_ok "   " Sample.one
  = ([AlertNoKey], Sample.one) /\
  onProcessClick Sample.extractMetadata Sample.world_ok "x" constructed
  = ([AlertNoImages], constructed) /\
  snd (onProcessClick Sample.extractMetadata Sample.world_ok "  k " Sample.one)
  = final (processWithVision Sample.extractMetadata Sample.world_ok "k" Sample.one).
Proof.
  assert (Hi : images Sample.one <> []) by discriminate.
  assert (Hb : blank "   ") by reflexivity.
  assert (Hn : ~ blank "  k ") by discriminate.
  split; [exact Hi|]. split; [exact Hb|]. split; [exact Hn|].
  destruct (onProcessClick_guards Sample.extractMetadata Sample.world_ok
                                  "   " Sample.one) as (_ & H2 & _).
  destruct (onProcessClick_guards Sample.extractMetadata Sample.world_ok
                                  "x" constructed) as (H1 & _).
  destruct (onProcessClick_guards Sample.extractMetadata Sample.world_ok
                                  "  k " Sample.one) as (_ & _ & _ & H4).
  split; [exact (H2 Hi Hb)|]. split; [exact (H1 eq_refl)|].
  destruct (H4 Hi Hn) as (Hout & _).
  exact (f_equal snd Hout).
Defined.

(** ** The constructor *)

Lemma initialize_fold (document : string -> option Element) (ids : list string) :
  forall (evs : list UiEvent) (p : Processor),
    fold_left (fun acc id => lookupElement document id acc) ids (evs, p)
    = ((evs ++ flat_map (fun id => match document id with
                                   | Some _ => []
                                   | None => [ConsoleMissing id; AlertMissing id]
                                   end) ids)%list,
       {| fields := fields p;
          elements := (elements p ++ map (fun id => (id, document id)) ids)%list;
          allElementsPresent :=
            allElementsPresent p
            && forallb (fun id => match document id with
                                  | Some _ => true
                                  | None => false
                                  end) ids;
          bound := bound p |}).
Proof.
  induction ids as [|id ids IH]; intros evs p.
  - simpl. rewrite !app_nil_r, andb_true_r. now destruct p.
  - cbn [fold_left]. unfold lookupElement at 2.
    destruct (document id) as [e|] eqn:E; rewrite IH;
      cbn [fields elements allElementsPresent bound flat_map map forallb];
      rewrite E, <- !app_assoc; cbn [app].
    + reflexivity.
    + now rewrite andb_false_r.
Qed.

(** X16. The constructor registers the listeners only when the document
    has every one of the thirteen elements.  Each missing id gets one
    console error and one alert, in the order of the list, and every id is
    looked up even after a miss.  The batch fields start empty with a 5 MB
    limit.  On an instance built from an incomplete document no listener
    runs: a drop, a file choice or a click changes nothing and shows
    nothing. *)
Theorem construct_binds_only_complete_documents :
  forall (document : string -> option Element),
    let out := construct document in
    let p := snd out in
    fields p = constructed /\
    elements p = map (fun id => (id, document id)) requiredIds /\
    fst out
    = flat_map (fun id => match document id with
                          | Some _ => []
                          | None => [ConsoleMissing id; AlertMissing id]
                          end) requiredIds /\
    (bound p = true <-> forall id, In id requiredIds -> document id <> None) /\
    allElementsPresent p = bound p /\
    (bound p = false -> forall l, dispatch l p = ([], p)).
Proof.
  intros document out p.
  assert (Hout : out
                 = (flat_map (fun id => match document id with
                                        | Some _ => []
                                        | None => [ConsoleMissing id; AlertMissing id]
                                        end) requiredIds,
                    let all := forallb (fun id => match document id with
                                                  | Some _ => true
                                                  | None => false
                                                  end) requiredIds in
                    {| fields := constructed;
                       elements := map (fun id => (id, document id)) requiredIds;
                       allElementsPresent := all;
                       bound := all |})).
  { unfold out, construct, initializeElements. rewrite initialize_fold.
    cbn [fields elements allElementsPresent bound app andb].
    generalize requiredIds. intros ids.
    destruct (forallb _ ids) eqn:E; cbn [fields elements allElementsPresent bound];
      reflexivity. }
  unfold p. rewrite Hout. cbn [fst snd fields elements allElementsPresent bound].
  split; [reflexivity|]. split; [reflexivity|]. split; [reflexivity|].
  split; [|split; [reflexivity|]].
  - rewrite forallb_forall. split; intros H id Hin; specialize (H id Hin).
    + destruct (document id); [discriminate | discriminate H].
    + destruct (document id); [reflexivity | now contradiction H].
  - intros Hb l. unfold dispatch. cbn [bound]. now rewrite Hb.
Qed.

Lemma construct_binds_only_complete_documents_witness :
  bound (snd (construct SampleUi.document_without_key)) = false /\
  fst (construct SampleUi.document_without_key)
  = [ConsoleMissing "visionApiKey"; AlertMissing "visionApiKey"] /\
  dispatch (onDrop [SampleUi.photo]) (snd (construct SampleUi.document_without_key))
  = ([], snd (construct SampleUi.document_without_key)).
Proof.
  destruct (construct_binds_only_complete_documents SampleUi.document_without_key)
    as (_ & _ & Hevs & _ & _ & Hinert).
  assert (Hb : bound (snd (construct SampleUi.document_without_key)) = false)
    by reflexivity.
  split; [exact Hb|]. split; [exact Hevs|].
  exact (Hinert Hb (onDrop [SampleUi.photo])).
Defined.
